(** * The style hook of the block editor

    A shallow embedding of [packages/block-editor/src/hooks/style.js]:
    the flattening of a nested style configuration into CSS variables
    ([getCSSVariables]), the extraction of inline styles ([getInlineStyles]),
    and the three filters the hook registers ([addAttribute],
    [addSaveProps], [addEditProps]).

    JavaScript values are trees.  The two objects the hook mutates in place,
    the prop bag and the block type descriptor, live in an explicit store
    and are passed around by location; a call that can throw returns a
    [completion].

    The hook imports [kebabCase], [mapKeys], [isObject], [entries], [has] and
    [get] from lodash.  They are modelled in [Lodash] after lodash 4.  The
    hook itself takes [kebabCase] as a parameter, so that what is proved of
    it holds for every such function; [Lodash.kebabCase], which follows
    lodash on ASCII strings, is used to evaluate examples. *)

From Stdlib Require Import String Ascii List Bool Arith NArith ZArith Lia.
From Stdlib Require Import Permutation.
From Stdlib Require Import DecimalString.
Import ListNotations.
Open Scope string_scope.
Open Scope list_scope.

Set Warnings "-register-all".

(** ** JavaScript values *)

(** The values a style configuration, a prop bag or an attribute set can
    hold.  An array or a function is an object for every operation used here
    ([isObject], [entries], [has], [get], spread): it is represented by the
    [VObj] of its own enumerable properties (an array by its index keys).  A
    number is only carried around and tested for truth, never computed with;
    zero is the falsy one ([NaN] is not represented). *)
Inductive value : Type :=
| VUndefined
| VNull
| VBool (b : bool)
| VNum (n : Z)
| VStr (s : string)
| VObj (props : list (string * value)).

(** The own enumerable properties of an object, in property order. *)
Definition obj : Type := list (string * value).

Definition keys (o : obj) : list string := map fst o.

(** ** Property order of a JavaScript object

    Own properties are enumerated with the array indices first, in ascending
    numeric order, and then the other string keys in the order in which they
    were created. *)

Definition digit_of (c : ascii) : option N :=
  let n := N_of_ascii c in
  if ((48 <=? n) && (n <=? 57))%N then Some (n - 48)%N else None.

Fixpoint decimal (s : string) (acc : N) : option N :=
  match s with
  | EmptyString => Some acc
  | String c rest =>
      match digit_of c with
      | Some d => decimal rest (10 * acc + d)%N
      | None => None
      end
  end.

(** A key is an array index when it is the canonical decimal spelling of an
    integer below 2^32 - 1. *)
Definition array_index (k : string) : option N :=
  match k with
  | EmptyString => None
  | String c rest =>
      if (Ascii.eqb c "0" && negb (rest =? ""))%bool then None
      else match decimal k 0 with
           | Some n => if (n <? 4294967295)%N then Some n else None
           | None => None
           end
  end.

Fixpoint obj_get (o : obj) (k : string) : option value :=
  match o with
  | [] => None
  | (k', v) :: rest => if k' =? k then Some v else obj_get rest k
  end.

(** Assignment to a property that exists keeps its place. *)
Fixpoint obj_update (o : obj) (k : string) (v : value) : obj :=
  match o with
  | [] => []
  | (k', v') :: rest =>
      if k' =? k then (k', v) :: rest else (k', v') :: obj_update rest k v
  end.

Fixpoint obj_insert_index (n : N) (k : string) (v : value) (o : obj) : obj :=
  match o with
  | [] => [(k, v)]
  | (k', v') :: rest =>
      match array_index k' with
      | Some m =>
          if (m <? n)%N then (k', v') :: obj_insert_index n k v rest
          else (k, v) :: o
      | None => (k, v) :: o
      end
  end.

(** A new property goes among the array indices when its key is one, and
    after every other property otherwise. *)
Definition obj_create (o : obj) (k : string) (v : value) : obj :=
  match array_index k with
  | Some n => obj_insert_index n k v o
  | None => o ++ [(k, v)]
  end.

(** [o[k] = v] *)
Definition obj_set (o : obj) (k : string) (v : value) : obj :=
  match obj_get o k with
  | Some _ => obj_update o k v
  | None => obj_create o k v
  end.

(** [Object.assign(target, source)], and each [...source] of an object
    literal: the source's properties are assigned in order. *)
Definition assign (target source : obj) : obj :=
  fold_left (fun acc kv => obj_set acc (fst kv) (snd kv)) source target.

Definition index_key (i : nat) : string :=
  NilEmpty.string_of_uint (Nat.to_uint i).

Fixpoint string_entries (i : nat) (s : string) : obj :=
  match s with
  | EmptyString => []
  | String c rest =>
      (index_key i, VStr (String c EmptyString)) :: string_entries (S i) rest
  end.

(** The own enumerable string-keyed properties of any value: those of an
    object, the characters of a string under their indices, and none for
    [undefined], [null], a boolean or a number. *)
Definition own_entries (v : value) : obj :=
  match v with
  | VObj props => props
  | VStr s => string_entries 0 s
  | _ => []
  end.

(** [{ ...a, ...b }] *)
Definition spread (a b : value) : obj :=
  assign (assign [] (own_entries a)) (own_entries b).

(** [v[k]] for a [v] that is neither [undefined] nor [null] (reading a
    property of those throws; every read below is guarded). *)
Definition prop (v : value) (k : string) : value :=
  match obj_get (own_entries v) k with
  | Some x => x
  | None => VUndefined
  end.

(** [if ( v )] *)
Definition truthy (v : value) : bool :=
  match v with
  | VUndefined | VNull => false
  | VBool b => b
  | VNum n => negb (n =? 0)%Z
  | VStr s => negb (s =? "")
  | VObj _ => true
  end.

Definition nullish (v : value) : bool :=
  match v with
  | VUndefined | VNull => true
  | _ => false
  end.

(** [s] without its prefix [pre], when it starts with it. *)
Fixpoint strip_prefix (pre s : string) : option string :=
  match pre, s with
  | EmptyString, _ => Some s
  | String a pre', String b s' =>
      if Ascii.eqb a b then strip_prefix pre' s' else None
  | String _ _, EmptyString => None
  end.

(** ** The lodash functions the hook imports *)

Module Lodash.

(** [isObject]: an object, array or function; [null] is not one. *)
Definition isObject (v : value) : bool :=
  match v with
  | VObj _ => true
  | _ => false
  end.

(** [entries] (an alias of [toPairs]): the own enumerable string-keyed
    pairs of a value; empty for [undefined] and [null]. *)
Definition entries (object : value) : obj := own_entries object.

(** [mapKeys]: a new object with the same values, each under the key the
    iteratee returns for [(value, key)]. *)
Definition mapKeys (object : obj) (iteratee : value -> string -> string) : obj :=
  fold_left
    (fun result kv => obj_set result (iteratee (snd kv) (fst kv)) (snd kv))
    object [].

(** [has] with an array path: every key of the path is an own property of
    the object reached so far.  (The fallback for indices of array-likes
    does not concern the non-numeric keys used here.) *)
Fixpoint has (object : value) (path : list string) : bool :=
  match path with
  | [] => false
  | key :: rest =>
      if nullish object then false
      else match obj_get (own_entries object) key with
           | None => false
           | Some v =>
               match rest with
               | [] => true
               | _ :: _ => has v rest
               end
           end
  end.

(** [get] with an array path and no default: walks the path while the
    object reached is neither [undefined] nor [null]. *)
Fixpoint get (object : value) (path : list string) : value :=
  match path with
  | [] => VUndefined
  | key :: rest =>
      if nullish object then VUndefined
      else match rest with
           | [] => prop object key
           | _ :: _ => get (prop object key) rest
           end
  end.

(** *** [kebabCase] on ASCII keys

    [kebabCase] removes apostrophes, splits the string into words,
    lower-cases them and joins them with single dashes.  On ASCII input
    [deburr] is the identity and every character that is not a letter or a
    digit separates words. *)

Definition code (c : ascii) : nat := nat_of_ascii c.
Definition is_upper (c : ascii) : bool := ((65 <=? code c) && (code c <=? 90))%nat.
Definition is_lower (c : ascii) : bool := ((97 <=? code c) && (code c <=? 122))%nat.
Definition is_digit (c : ascii) : bool := ((48 <=? code c) && (code c <=? 57))%nat.
Definition is_alpha (c : ascii) : bool := is_upper c || is_lower c.
Definition is_alnum (c : ascii) : bool := is_alpha c || is_digit c.

Definition toLower (c : ascii) : ascii :=
  if is_upper c then ascii_of_nat (code c + 32) else c.

Fixpoint toLowerCase (s : string) : string :=
  match s with
  | EmptyString => EmptyString
  | String c rest => String (toLower c) (toLowerCase rest)
  end.

Definition starts_with (p : ascii -> bool) (s : string) : bool :=
  match s with
  | String c _ => p c
  | EmptyString => false
  end.

(** The longest prefix whose characters satisfy [p], and what follows
    it. *)
Fixpoint take_while (p : ascii -> bool) (s : string) : string :=
  match s with
  | String c rest => if p c then String c (take_while p rest) else EmptyString
  | EmptyString => EmptyString
  end.

Fixpoint drop_while (p : ascii -> bool) (s : string) : string :=
  match s with
  | String c rest => if p c then drop_while p rest else s
  | EmptyString => EmptyString
  end.

Fixpoint last_char (d : ascii) (s : string) : ascii :=
  match s with
  | EmptyString => d
  | String c rest => last_char c rest
  end.

(** [reApos]: apostrophes are dropped before the split. *)
Fixpoint remove_apostrophes (s : string) : string :=
  match s with
  | EmptyString => EmptyString
  | String c rest =>
      if Ascii.eqb c "'" then remove_apostrophes rest
      else String c (remove_apostrophes rest)
  end.

(** [reHasUnicodeWord]: a lower-to-upper step, two capitals before a
    lower-case letter, a digit next to a letter, or any character other
    than a letter, a digit or a space. *)
Fixpoint hasUnicodeWord (s : string) : bool :=
  match s with
  | EmptyString => false
  | String a rest =>
      negb (is_alnum a || Ascii.eqb a " ")
      || match rest with
         | String b rest' =>
             (is_lower a && is_upper b)
             || (is_upper a && is_upper b && starts_with is_lower rest')
             || (is_digit a && is_alpha b)
             || (is_alpha a && is_digit b)
         | EmptyString => false
         end
      || hasUnicodeWord rest
  end.

(** [string.match( re )] for a global expression: every match, from left
    to right, each search starting where the last match ended.  [re s] is
    the match that starts at the head of [s], if there is one; [skip] counts
    the characters of the last match that are still to be passed. *)
Fixpoint match_all (re : string -> option string) (skip : nat) (s : string)
    : list string :=
  match s with
  | EmptyString => []
  | String _ rest =>
      match skip with
      | S k => match_all re k rest
      | O =>
          match re s with
          | Some w => w :: match_all re (String.length w - 1) rest
          | None => match_all re 0 rest
          end
      end
  end.

(** [reAsciiWord]: a maximal run of letters and digits. *)
Definition reAsciiWord (s : string) : option string :=
  if starts_with is_alnum s then Some (take_while is_alnum s) else None.

(** A run of capitals stops before a capital that a lower-case letter
    follows: that capital starts the next word. *)
Fixpoint capitals (s : string) : string :=
  match s with
  | String c rest =>
      if is_upper c && negb (starts_with is_lower rest) then
        String c (capitals rest)
      else EmptyString
  | EmptyString => EmptyString
  end.

(** [rsOrdUpper] and [rsOrdLower]: after the digits, the ordinal suffix
    that fits the last digit, provided no letter of the same case and no
    digit follows it. *)
Definition ordinal (d : ascii) (r : string) : option string :=
  let lower :=
    if Ascii.eqb d "1" then "st" else if Ascii.eqb d "2" then "nd"
    else if Ascii.eqb d "3" then "rd" else "th" in
  let upper :=
    if Ascii.eqb d "1" then "ST" else if Ascii.eqb d "2" then "ND"
    else if Ascii.eqb d "3" then "RD" else "TH" in
  match strip_prefix upper r with
  | Some r' =>
      if starts_with (fun c => is_upper c || is_digit c) r' then None
      else Some upper
  | None =>
      match strip_prefix lower r with
      | Some r' =>
          if starts_with (fun c => is_lower c || is_digit c) r' then None
          else Some lower
      | None => None
      end
  end.

(** [reUnicodeWord] on ASCII: at a letter, an optional capital and the
    lower-case letters after it, or else a run of capitals; at a digit, the
    digits with an ordinal suffix if there is one; no word starts at any
    other character. *)
Definition reUnicodeWord (s : string) : option string :=
  match s with
  | EmptyString => None
  | String c rest =>
      if is_lower c then Some (take_while is_lower s)
      else if is_upper c then
        if starts_with is_lower rest then Some (String c (take_while is_lower rest))
        else Some (capitals s)
      else if is_digit c then
        let digits := take_while is_digit s in
        match ordinal (last_char c digits) (drop_while is_digit s) with
        | Some suffix => Some (digits ++ suffix)%string
        | None => Some digits
        end
      else None
  end.

Definition asciiWords (s : string) : list string := match_all reAsciiWord 0 s.

Definition unicodeWords (s : string) : list string := match_all reUnicodeWord 0 s.

Definition words (s : string) : list string :=
  if hasUnicodeWord s then unicodeWords s else asciiWords s.

(** The compounder of [kebabCase]: a dash before every word but the
    first. *)
Definition compound (ws : list string) : string :=
  match ws with
  | [] => EmptyString
  | w :: rest =>
      fold_left (fun result word => (result ++ "-" ++ toLowerCase word)%string)
        rest (toLowerCase w)
  end.

Definition kebabCase (s : string) : string :=
  compound (words (remove_apostrophes s)).

End Lodash.

(** ** The store *)

(** A function stored in [getEditWrapperProps]: either one the block
    declared itself, which builds a prop bag from the attributes, or the
    closure [addEditProps] installs, which holds the callback it replaced and
    a reference to the descriptor. *)
Inductive callback : Type :=
| Host (f : value -> obj)
| Wrapper (existingGetEditWrapperProps : option callback) (settings : nat).

(** The fields of a block type descriptor that the hook reads or writes.
    [attributes] is the descriptor's own mapping of attribute declarations. *)
Record BlockType : Type := mkBlockType {
  supports : string -> bool;
  attributes : obj;
  getEditWrapperProps : option callback
}.

(** The ambient [window] object, the prop bags and the block type
    descriptors.  A location always denotes an object. *)
Record store : Type := mkStore {
  window : value;
  bags : nat -> obj;
  next_bag : nat;
  types : nat -> BlockType
}.

Definition update {A : Type} (h : nat -> A) (l : nat) (a : A) : nat -> A :=
  fun l' => if Nat.eqb l' l then a else h l'.

Definition set_bag (st : store) (l : nat) (o : obj) : store :=
  mkStore (window st) (update (bags st) l o) (next_bag st) (types st).

Definition set_type (st : store) (l : nat) (t : BlockType) : store :=
  mkStore (window st) (bags st) (next_bag st) (update (types st) l t).

Definition set_window (st : store) (w : value) : store :=
  mkStore w (bags st) (next_bag st) (types st).

(** A fresh prop bag with the given properties. *)
Definition alloc (st : store) (o : obj) : store * nat :=
  (mkStore (window st) (update (bags st) (next_bag st) o)
     (S (next_bag st)) (types st),
   next_bag st).

(** How a call ends: with a result, or with a [TypeError]. *)
Inductive completion (A : Type) : Type :=
| Normal (a : A)
| TypeError.
Arguments Normal {A} a.
Arguments TypeError {A}.

(** Modelled from the spec: [hasBlockSupport] of [@wordpress/blocks], which
    is not among the sources.  The block type "declares support for" a named
    capability; the descriptor carries that declaration in [supports]. *)
Definition hasBlockSupport (blockType : BlockType) (key : string) : bool :=
  supports blockType key.

(** ** The hook *)

Section Style.

Import Lodash.

(** [kebabCase] of lodash. *)
Variable kebabCase : string -> string.

(** The two capability names, of [./color] and [./line-height]. *)
Variables COLOR_SUPPORT_KEY LINE_HEIGHT_SUPPRT_KEY : string.

Definition styleSupportKeys : list string :=
  [COLOR_SUPPORT_KEY; LINE_HEIGHT_SUPPRT_KEY].

Definition hasStyleSupport (blockType : BlockType) : bool :=
  existsb (fun key => hasBlockSupport blockType key) styleSupportKeys.

(** [window && window.__unstableSupportsGlobalStyles] *)
Definition hasGlobalStylesSupport (st : store) : value :=
  if truthy (window st) then prop (window st) "__unstableSupportsGlobalStyles"
  else window st.

Definition prefix : string := "--wp".
Definition token : string := "--".

(** The callback of [forEach] in [getNestedCSSVariables]; [result] is the
    variable it updates.  (An assignment [result[ k ] = v] creates or updates
    an own property for every [k] but ["__proto__"], which the dash-joined
    words of [kebabCase] never spell.) *)
Definition visit (getNestedCSSVariables : value -> obj)
    (result : obj) (entry : string * value) : obj :=
  let (key, value) := entry in
  if negb (isObject value) then obj_set result (kebabCase key) value
  else
    spread (VObj result)
      (VObj (mapKeys (getNestedCSSVariables value)
               (fun _ subkey => (kebabCase key ++ token ++ subkey)%string))).

(** [entries( config ).forEach( ... )]: an object's entries are its
    properties; those of any other value are never objects themselves, so the
    function is not called again on them. *)
Fixpoint getNestedCSSVariables (config : value) : obj :=
  match config with
  | VObj props => fold_left (visit getNestedCSSVariables) props []
  | _ => fold_left (visit (fun _ => [])) (entries config) []
  end.

(** [styles = {}]: the default stands in for [undefined] only. *)
Definition default_styles (styles : value) : value :=
  match styles with
  | VUndefined => VObj []
  | _ => styles
  end.

Definition getCSSVariables (styles : value) : obj :=
  let styles := default_styles styles in
  mapKeys (getNestedCSSVariables styles)
    (fun _ key => (prefix ++ token ++ key)%string).

Definition mappings : list (string * list string) :=
  [ ("lineHeight", ["typography"; "lineHeight"]);
    ("backgroundColor", ["color"; "background"]);
    ("color", ["color"; "text"]) ].

Definition getInlineStyles (styles : value) : obj :=
  let styles := default_styles styles in
  fold_left
    (fun output m =>
       let (styleKey, objectKey) := m : string * list string in
       if has styles objectKey then obj_set output styleKey (get styles objectKey)
       else output)
    mappings [].

(** [addAttribute] mutates the descriptor's attribute declarations in
    place and returns the descriptor it was given. *)
Definition addAttribute (st : store) (settings : nat) : store * nat :=
  let s := types st settings in
  if negb (hasStyleSupport s) then (st, settings)
  else
    let st :=
      if negb (truthy (prop (VObj (attributes s)) "style")) then
        set_type st settings
          (mkBlockType (supports s)
             (assign (attributes s) [("style", VObj [("type", VStr "object")])])
             (getEditWrapperProps s))
      else st in
    (st, settings).

(** [addSaveProps] assigns a new object to [props.style] and returns the
    prop bag it was given.  Destructuring [attributes] throws when it is
    [undefined] or [null]. *)
Definition addSaveProps (st : store) (props : nat) (blockType : nat)
    (attributes : value) : completion (store * nat) :=
  if negb (hasStyleSupport (types st blockType)) then Normal (st, props)
  else if nullish attributes then TypeError
  else
    let style := prop attributes "style" in
    let bag := bags st props in
    if truthy (hasGlobalStylesSupport st) then
      Normal
        (set_bag st props
           (obj_set bag "style"
              (VObj (spread (VObj (getCSSVariables style))
                       (prop (VObj bag) "style")))),
         props)
    else
      Normal
        (set_bag st props
           (obj_set bag "style"
              (VObj (spread (VObj (getInlineStyles style))
                       (prop (VObj bag) "style")))),
         props).

(** Calling what [getEditWrapperProps] holds.  The closure of
    [addEditProps] starts from a fresh [{}], replaces it by the result of
    the callback it wrapped when there is one, and passes the bag to
    [addSaveProps] together with the descriptor it refers to. *)
Fixpoint call (cb : callback) (st : store) (attributes : value)
    : completion (store * nat) :=
  match cb with
  | Host f => Normal (alloc st (f attributes))
  | Wrapper existingGetEditWrapperProps settings =>
      let (st, props) := alloc st [] in
      match
        match existingGetEditWrapperProps with
        | Some existing => call existing st attributes
        | None => Normal (st, props)
        end
      with
      | Normal (st, props) => addSaveProps st props settings attributes
      | TypeError => TypeError
      end
  end.

Definition addEditProps (st : store) (settings : nat) : store * nat :=
  let s := types st settings in
  if negb (hasStyleSupport s) then (st, settings)
  else
    let existingGetEditWrapperProps := getEditWrapperProps s in
    (set_type st settings
       (mkBlockType (supports s) (attributes s)
          (Some (Wrapper existingGetEditWrapperProps settings))),
     settings).

End Style.

(** ** Vocabulary of the specification *)

Import Lodash.

(** The value a sequence of assignments leaves under [k]: that of the last
    assignment to [k]. *)
Definition last_write (writes : obj) (k : string) : option value :=
  obj_get (rev writes) k.

(** [a] when it holds a value, otherwise [b]. *)
Definition or_else {A : Type} (a b : option A) : option A :=
  match a with
  | Some _ => a
  | None => b
  end.

(** A declaration moved under the path [p]. *)
Definition rekey (p : string) (kv : string * value) : string * value :=
  ((p ++ fst kv)%string, snd kv).

Section Declarations.

Variable kebabCase : string -> string.

(** What one entry declares: a scalar declares itself under its kebab-cased
    key, a mapping declares what its entries declare, moved under its key. *)
Definition declare (emitted : value -> obj) (entry : string * value) : obj :=
  let (key, value) := entry in
  if isObject value then map (rekey (kebabCase key ++ token)) (emitted value)
  else [(kebabCase key, value)].

(** The variables a configuration declares, in traversal order. *)
Fixpoint emitted (config : value) : obj :=
  match config with
  | VObj props => flat_map (declare emitted) props
  | _ => flat_map (declare (fun _ => [])) (entries config)
  end.

(** A variable name that starts with the segment of [key]. *)
Definition headed (key name : string) : Prop :=
  name = kebabCase key \/ exists r, name = (kebabCase key ++ token ++ r)%string.

End Declarations.

(** The number of scalars in a configuration. *)
Fixpoint leaves (v : value) : nat :=
  match v with
  | VObj props => list_sum (map (fun kv => leaves (snd kv)) props)
  | _ => 1
  end.

(** The scalars of a configuration with the keys that lead to them, in
    traversal order.  A scalar is any value that is not an object, whatever
    its truth value. *)
Fixpoint leaf_paths (v : value) : list (list string * value) :=
  match v with
  | VObj props =>
      flat_map
        (fun kv =>
           if isObject (snd kv)
           then map (fun pv => (fst kv :: fst pv, snd pv)) (leaf_paths (snd kv))
           else [([fst kv], snd kv)])
        props
  | _ => []
  end.

(** The name of the variable for the scalar at [path]: [--wp--] and the
    kebab-cased keys joined by [--]. *)
Definition css_variable (kebabCase : string -> string) (path : list string)
    : string :=
  ("--wp--" ++ String.concat "--" (map kebabCase path))%string.

(** The declaration of the scalar [snd pv] found at the path [fst pv]. *)
Definition css_declaration (kebabCase : string -> string)
    (pv : list string * value) : string * value :=
  (css_variable kebabCase (fst pv), snd pv).

(** No string occurs twice in [l]. *)
Fixpoint nodupb (l : list string) : bool :=
  match l with
  | [] => true
  | x :: rest => negb (existsb (String.eqb x) rest) && nodupb rest
  end.

(** The keys of every mapping of the configuration, once passed through
    [f], are pairwise distinct. *)
Fixpoint distinct_keys (f : string -> string) (v : value) : bool :=
  match v with
  | VObj props =>
      nodupb (map (fun kv => f (fst kv)) props)
      && forallb (fun kv => distinct_keys f (snd kv)) props
  | _ => true
  end.

(** A path segment: no dash is followed by another dash or by the end, so
    that the segment neither contains the token [--] nor runs into one that
    is appended to it. *)
Fixpoint segment (s : string) : bool :=
  match s with
  | EmptyString => true
  | String c rest =>
      if Ascii.eqb c "-" then
        match rest with
        | EmptyString => false
        | String c' _ => negb (Ascii.eqb c' "-") && segment rest
        end
      else segment rest
  end.

(** Every character of [s] satisfies [p]. *)
Fixpoint all (p : ascii -> bool) (s : string) : bool :=
  match s with
  | EmptyString => true
  | String c rest => p c && all p rest
  end.

Definition no_dash (c : ascii) : bool := negb (Ascii.eqb c "-").

(** A word of [kebabCase]: not empty and without a dash. *)
Definition word (s : string) : bool :=
  negb (s =? "") && all no_dash s.

(** The value at the end of a path, when every key of the path is an own
    property of the value reached before it. *)
Fixpoint reach (v : value) (path : list string) : option value :=
  match path with
  | [] => Some v
  | key :: rest =>
      if nullish v then None
      else match obj_get (own_entries v) key with
           | Some x => reach x rest
           | None => None
           end
  end.

(** The inline style a pair of the mapping table contributes. *)
Definition inline_entry (styles : value) (m : string * list string) : obj :=
  match reach styles (snd m) with
  | Some v => [(fst m, v)]
  | None => []
  end.

(** The values [addSaveProps] computes from the [style] attribute: the
    flattened variables in global-styles mode, the inline styles otherwise. *)
Definition computed_styles (kebabCase : string -> string) (st : store)
    (style : value) : obj :=
  if truthy (hasGlobalStylesSupport st) then getCSSVariables kebabCase style
  else getInlineStyles style.

(** No scalar of the configuration sits at a key that is kebab-cased to an
    array index. *)
Fixpoint plain_keys (kebabCase : string -> string) (v : value) : bool :=
  match v with
  | VObj props =>
      forallb
        (fun kv =>
           if isObject (snd kv) then plain_keys kebabCase (snd kv)
           else match array_index (kebabCase (fst kv)) with
                | Some _ => false
                | None => true
                end)
        props
  | _ => true
  end.

(** A decimal digit. *)
Definition decimal_digit (c : ascii) : bool :=
  match digit_of c with
  | Some _ => true
  | None => false
  end.

(** [n + 1] wrappers of [addEditProps] around the callback [original], all
    for the descriptor [settings]. *)
Fixpoint wrappers (original : option callback) (settings : nat) (n : nat)
    : callback :=
  match n with
  | O => Wrapper original settings
  | S n' => Wrapper (Some (wrappers original settings n')) settings
  end.

(** The store after [n] fresh empty bags. *)
Fixpoint allocs (n : nat) (st : store) : store :=
  match n with
  | O => st
  | S n' => allocs n' (fst (alloc st []))
  end.

(** Some wrapper of the chain is for a descriptor with style support. *)
Fixpoint injects (CK LK : string) (st : store) (cb : callback) : bool :=
  match cb with
  | Host _ => false
  | Wrapper existing settings =>
      match existing with
      | Some prior => injects CK LK st prior
      | None => false
      end
      || hasStyleSupport CK LK (types st settings)
  end.

(** ** Induction on values *)

Lemma value_ind' (P : value -> Prop) :
  P VUndefined -> P VNull -> (forall b, P (VBool b)) -> (forall n, P (VNum n)) ->
  (forall s, P (VStr s)) ->
  (forall props, Forall (fun kv => P (snd kv)) props -> P (VObj props)) ->
  forall v, P v.
Proof.
  intros HU HN HB HZ HS HO.
  refine (fix F (v : value) : P v :=
            match v with
            | VUndefined => HU
            | VNull => HN
            | VBool b => HB b
            | VNum n => HZ n
            | VStr s => HS s
            | VObj props =>
                HO props
                  ((fix G (l : list (string * value)) : Forall (fun kv => P (snd kv)) l :=
                      match l with
                      | [] => Forall_nil _
                      | kv :: l' => Forall_cons kv (F (snd kv)) (G l')
                      end) props)
            end).
Qed.

(** ** Strings *)

Lemma append_assoc (a b c : string) : (a ++ b ++ c)%string = ((a ++ b) ++ c)%string.
Proof. induction a as [|x a IH]; simpl; [reflexivity | now rewrite IH]. Qed.

Lemma append_inj (p a b : string) : (p ++ a)%string = (p ++ b)%string -> a = b.
Proof. induction p as [|x p IH]; simpl; [auto | intros [= H]; auto]. Qed.

Lemma strip_prefix_app p r : strip_prefix p (p ++ r) = Some r.
Proof.
  induction p as [|c p IH]; simpl; [reflexivity|].
  now rewrite Ascii.eqb_refl.
Qed.

Lemma strip_prefix_Some p s r : strip_prefix p s = Some r -> s = (p ++ r)%string.
Proof.
  revert s. induction p as [|c p IH]; intros s; simpl.
  - now intros [= ->].
  - destruct s as [|c' s]; [discriminate|].
    destruct (Ascii.eqb_spec c c') as [->|]; [|discriminate].
    intros H. now rewrite (IH _ H).
Qed.

Lemma eqb_app_prefix p k name :
  ((p ++ k)%string =? name)
  = match strip_prefix p name with Some r => k =? r | None => false end.
Proof.
  destruct (strip_prefix p name) as [r|] eqn:E.
  - apply strip_prefix_Some in E. subst name.
    destruct (String.eqb_spec k r) as [->|N].
    + apply String.eqb_refl.
    + apply String.eqb_neq. intros H. apply N.
      now apply append_inj in H.
  - apply String.eqb_neq. intros <-. now rewrite strip_prefix_app in E.
Qed.

(** ** Objects *)

Section ObjectFacts.

Implicit Types (o t s : obj) (k : string) (v : value).

Lemma obj_get_app o1 o2 k :
  obj_get (o1 ++ o2) k = or_else (obj_get o1 k) (obj_get o2 k).
Proof.
  induction o1 as [|[k' v'] o1 IH]; simpl; [reflexivity|].
  destruct (k' =? k); [reflexivity | exact IH].
Qed.

Lemma obj_get_None o k : obj_get o k = None <-> ~ In k (keys o).
Proof.
  induction o as [|[k0 v0] o IH]; simpl.
  - tauto.
  - destruct (String.eqb_spec k0 k) as [E|E].
    + split; [discriminate | intros H; exfalso; apply H; left; exact E].
    + rewrite IH. tauto.
Qed.

Lemma obj_get_In o k v : obj_get o k = Some v -> In (k, v) o.
Proof.
  induction o as [|[k0 v0] o IH]; simpl; [discriminate|].
  destruct (String.eqb_spec k0 k) as [E|E].
  - intros [= ->]. left. now subst.
  - intros H. right. auto.
Qed.

Lemma In_obj_get o k v : NoDup (keys o) -> In (k, v) o -> obj_get o k = Some v.
Proof.
  induction o as [|[k0 v0] o IH]; simpl; [tauto|].
  intros Hnd [E|Hin]; inversion Hnd as [|? ? Hnotin Hnd']; subst.
  - injection E as -> ->. now rewrite String.eqb_refl.
  - destruct (String.eqb_spec k0 k) as [->|_]; [|auto].
    exfalso. apply Hnotin. apply (in_map fst _ _ Hin).
Qed.

Lemma obj_get_update o k v k' :
  obj_get o k <> None ->
  obj_get (obj_update o k v) k' = if k =? k' then Some v else obj_get o k'.
Proof.
  induction o as [|[k0 v0] o IH]; simpl; intros H; [congruence|].
  destruct (String.eqb_spec k0 k) as [E|E]; simpl.
  - subst k0. destruct (k =? k'); reflexivity.
  - rewrite (IH H). destruct (String.eqb_spec k k') as [E'|E'].
    + subst k'. apply String.eqb_neq in E. now rewrite E.
    + reflexivity.
Qed.

Lemma keys_update o k v : keys (obj_update o k v) = keys o.
Proof.
  induction o as [|[k0 v0] o IH]; simpl; [reflexivity|].
  destruct (String.eqb_spec k0 k) as [E|E]; simpl; [reflexivity|].
  now rewrite IH.
Qed.

Lemma obj_get_insert_index n o k v k' :
  obj_get o k = None ->
  obj_get (obj_insert_index n k v o) k' = if k =? k' then Some v else obj_get o k'.
Proof.
  induction o as [|[k0 v0] o IH]; simpl; [reflexivity|].
  destruct (String.eqb_spec k0 k) as [E|E]; [discriminate|]. intros H.
  destruct (array_index k0) as [m|]; [destruct (m <? n)%N|]; simpl; try reflexivity.
  rewrite (IH H). destruct (String.eqb_spec k0 k') as [E'|E']; [|reflexivity].
  subst k'. apply not_eq_sym in E. apply String.eqb_neq in E. now rewrite E.
Qed.

Lemma keys_insert_index n o k v :
  Permutation (keys (obj_insert_index n k v o)) (k :: keys o).
Proof.
  induction o as [|[k0 v0] o IH]; simpl; [reflexivity|].
  destruct (array_index k0) as [m|]; [destruct (m <? n)%N|]; simpl; try reflexivity.
  rewrite IH. apply perm_swap.
Qed.

Lemma obj_get_create o k v k' :
  obj_get o k = None ->
  obj_get (obj_create o k v) k' = if k =? k' then Some v else obj_get o k'.
Proof.
  intros H. unfold obj_create. destruct (array_index k).
  - now apply obj_get_insert_index.
  - rewrite obj_get_app. simpl. destruct (String.eqb_spec k k') as [E|E].
    + subst k'. now rewrite H.
    + now destruct (obj_get o k').
Qed.

Lemma keys_create o k v : Permutation (keys (obj_create o k v)) (k :: keys o).
Proof.
  unfold obj_create. destruct (array_index k).
  - apply keys_insert_index.
  - unfold keys. rewrite map_app. simpl. symmetry. apply Permutation_cons_append.
Qed.

(** Reading back what was assigned. *)
Lemma obj_get_set o k v k' :
  obj_get (obj_set o k v) k' = if k =? k' then Some v else obj_get o k'.
Proof.
  unfold obj_set. destruct (obj_get o k) eqn:E.
  - apply obj_get_update. congruence.
  - now apply obj_get_create.
Qed.

Lemma keys_set_old o k v :
  obj_get o k <> None -> keys (obj_set o k v) = keys o.
Proof.
  unfold obj_set. destruct (obj_get o k); [intros _; apply keys_update | congruence].
Qed.

Lemma keys_set_new o k v :
  obj_get o k = None -> Permutation (keys (obj_set o k v)) (k :: keys o).
Proof.
  unfold obj_set. intros ->. apply keys_create.
Qed.

Lemma NoDup_set o k v : NoDup (keys o) -> NoDup (keys (obj_set o k v)).
Proof.
  intros H. destruct (obj_get o k) eqn:E.
  - rewrite keys_set_old; congruence.
  - apply (Permutation_NoDup (l := k :: keys o)).
    + symmetry. now apply keys_set_new.
    + constructor; [now apply obj_get_None | exact H].
Qed.

(** *** A sequence of assignments *)

Lemma last_write_snoc ws k v k' :
  last_write (ws ++ [(k, v)]) k' = if k =? k' then Some v else last_write ws k'.
Proof. unfold last_write. rewrite rev_app_distr. reflexivity. Qed.

Lemma last_write_app ws1 ws2 k :
  last_write (ws1 ++ ws2) k = or_else (last_write ws2 k) (last_write ws1 k).
Proof. unfold last_write. rewrite rev_app_distr. apply obj_get_app. Qed.

Lemma last_write_cons kv ws k :
  last_write (kv :: ws) k
  = or_else (last_write ws k) (if fst kv =? k then Some (snd kv) else None).
Proof.
  change (kv :: ws) with ([kv] ++ ws). rewrite last_write_app.
  destruct kv; reflexivity.
Qed.

Lemma obj_get_assign t s k :
  obj_get (assign t s) k = or_else (last_write s k) (obj_get t k).
Proof.
  unfold assign. revert t. induction s as [|[k0 v0] s IH]; intros t; simpl.
  - reflexivity.
  - rewrite IH, obj_get_set, last_write_cons. simpl.
    destruct (last_write s k); [reflexivity|]. simpl.
    now destruct (k0 =? k).
Qed.

Lemma NoDup_assign t s : NoDup (keys t) -> NoDup (keys (assign t s)).
Proof.
  unfold assign. revert t. induction s as [|[k0 v0] s IH]; intros t H; simpl.
  - exact H.
  - apply IH. now apply NoDup_set.
Qed.

Lemma last_write_None ws k : last_write ws k = None <-> ~ In k (keys ws).
Proof.
  unfold last_write. rewrite obj_get_None. unfold keys.
  rewrite map_rev. now rewrite <- in_rev.
Qed.

Lemma last_write_NoDup o k : NoDup (keys o) -> last_write o k = obj_get o k.
Proof.
  intros H. unfold last_write.
  destruct (obj_get o k) eqn:E.
  - apply In_obj_get.
    + unfold keys. rewrite map_rev. now apply NoDup_rev.
    + rewrite <- in_rev. now apply obj_get_In.
  - apply obj_get_None. apply obj_get_None in E. unfold keys in *.
    rewrite map_rev. now rewrite <- in_rev.
Qed.

End ObjectFacts.

(** ** Flattening *)

Section Refine.

Variable kebabCase : string -> string.
Local Abbreviation getNested := (getNestedCSSVariables kebabCase).

Lemma obj_get_rekey p o name :
  obj_get (map (rekey p) o) name
  = match strip_prefix p name with Some r => obj_get o r | None => None end.
Proof.
  induction o as [|[k v] o IH]; simpl.
  - now destruct (strip_prefix p name).
  - rewrite eqb_app_prefix, IH. destruct (strip_prefix p name); [|reflexivity].
    reflexivity.
Qed.

Lemma last_write_rekey p ws name :
  last_write (map (rekey p) ws) name
  = match strip_prefix p name with Some r => last_write ws r | None => None end.
Proof. unfold last_write. rewrite <- map_rev. apply obj_get_rekey. Qed.

Lemma mapKeys_assign o (f : string -> string) :
  mapKeys o (fun _ key => f key) = assign [] (map (fun kv => (f (fst kv), snd kv)) o).
Proof.
  unfold mapKeys, assign. generalize (@nil (string * value)).
  induction o as [|kv o IH]; intros acc; simpl; [reflexivity | apply IH].
Qed.

Lemma NoDup_mapKeys o f : NoDup (keys (mapKeys o (fun _ key => f key))).
Proof. rewrite mapKeys_assign. apply NoDup_assign. constructor. Qed.

Lemma obj_get_mapKeys p (f : string -> string) o name :
  (forall key, f key = (p ++ key)%string) ->
  NoDup (keys o) ->
  obj_get (mapKeys o (fun _ key => f key)) name
  = match strip_prefix p name with Some r => obj_get o r | None => None end.
Proof.
  intros Hf H. rewrite mapKeys_assign, obj_get_assign. simpl.
  rewrite (map_ext _ (rekey p)) by (intros kv; unfold rekey; now rewrite Hf).
  rewrite last_write_rekey. destruct (strip_prefix p name) as [r|]; [|reflexivity].
  rewrite (last_write_NoDup _ _ H). now destruct (obj_get o r).
Qed.

Lemma NoDup_spread a b : NoDup (keys (spread a b)).
Proof. unfold spread. apply NoDup_assign, NoDup_assign. constructor. Qed.

Lemma obj_get_spread a b k :
  obj_get (spread a b) k
  = or_else (last_write (own_entries b) k) (last_write (own_entries a) k).
Proof.
  unfold spread. rewrite !obj_get_assign. simpl.
  now destruct (last_write (own_entries a) k).
Qed.

Lemma NoDup_visit recur acc entry :
  NoDup (keys acc) -> NoDup (keys (visit kebabCase recur acc entry)).
Proof.
  intros H. destruct entry as [k v]. unfold visit.
  destruct (isObject v); simpl; [apply NoDup_spread | now apply NoDup_set].
Qed.

Lemma NoDup_forEach recur es acc :
  NoDup (keys acc) -> NoDup (keys (fold_left (visit kebabCase recur) es acc)).
Proof.
  revert acc. induction es as [|e es IH]; intros acc H; simpl; [exact H|].
  apply IH. now apply NoDup_visit.
Qed.

Lemma NoDup_getNested config : NoDup (keys (getNested config)).
Proof. destruct config; simpl; try apply NoDup_forEach; constructor. Qed.

Lemma visit_leaf recur1 recur2 acc entry :
  isObject (snd entry) = false -> visit kebabCase recur1 acc entry = visit kebabCase recur2 acc entry.
Proof. destruct entry as [k v]. simpl. now intros ->. Qed.

Lemma forEach_leaves recur1 recur2 es acc :
  Forall (fun kv => isObject (snd kv) = false) es ->
  fold_left (visit kebabCase recur1) es acc = fold_left (visit kebabCase recur2) es acc.
Proof.
  intros H. revert acc. induction H as [|e es He _ IH]; intros acc; simpl.
  - reflexivity.
  - now rewrite IH, (visit_leaf recur1 recur2 acc e He).
Qed.

Lemma string_entries_leaves i s :
  Forall (fun kv => isObject (snd kv) = false) (string_entries i s).
Proof. revert i. induction s; intros i; simpl; constructor; auto. Qed.

Lemma entries_leaves config :
  isObject config = false ->
  Forall (fun kv => isObject (snd kv) = false) (entries config).
Proof.
  destruct config; simpl; try constructor; try discriminate.
  intros _. apply string_entries_leaves.
Qed.

(** The function as the source writes it: one [forEach] over the entries. *)
Lemma getNested_forEach config :
  getNested config = fold_left (visit kebabCase getNested) (entries config) [].
Proof.
  destruct config; try reflexivity.
  apply forEach_leaves. apply string_entries_leaves.
Qed.

Lemma visit_scalar recur acc k v :
  isObject v = false -> visit kebabCase recur acc (k, v) = obj_set acc (kebabCase k) v.
Proof. unfold visit. now intros ->. Qed.

Lemma visit_object recur acc k v :
  isObject v = true ->
  visit kebabCase recur acc (k, v)
  = spread (VObj acc)
      (VObj (mapKeys (recur v) (fun _ subkey => (kebabCase k ++ token ++ subkey)%string))).
Proof. unfold visit. now intros ->. Qed.

Lemma forEach_emitted recur emit es : forall acc ws,
  Forall (fun kv => isObject (snd kv) = true ->
            NoDup (keys (recur (snd kv))) /\
            forall name, obj_get (recur (snd kv)) name = last_write (emit (snd kv)) name) es ->
  NoDup (keys acc) ->
  (forall name, obj_get acc name = last_write ws name) ->
  forall name,
    obj_get (fold_left (visit kebabCase recur) es acc) name
    = last_write (ws ++ flat_map (declare kebabCase emit) es) name.
Proof.
  induction es as [|[k v] es IH]; intros acc ws Hes Hnd Hacc name;
    cbn [fold_left flat_map].
  - rewrite app_nil_r. apply Hacc.
  - inversion Hes as [|? ? Hv Hes']; subst. cbn [snd] in Hv.
    rewrite app_assoc. apply IH; [exact Hes' | now apply NoDup_visit |].
    clear name. intros name. unfold declare. destruct (isObject v) eqn:Ev.
    + destruct (Hv eq_refl) as [Hndv Hgetv].
      rewrite (visit_object _ _ _ _ Ev), obj_get_spread. cbn [own_entries].
      rewrite (last_write_NoDup _ _ (NoDup_mapKeys _ _)), (last_write_NoDup _ _ Hnd).
      rewrite last_write_app, last_write_rekey, Hacc.
      rewrite (obj_get_mapKeys (kebabCase k ++ token) _ _ _
                 (fun key => append_assoc _ _ _) Hndv).
      destruct (strip_prefix _ name); [|reflexivity]. now rewrite Hgetv.
    + rewrite (visit_scalar _ _ _ _ Ev), obj_get_set, last_write_snoc. now rewrite Hacc.
Qed.

Lemma emitted_entries config :
  emitted kebabCase config
  = flat_map (declare kebabCase (emitted kebabCase)) (entries config).
Proof.
  destruct config; try reflexivity.
  simpl. generalize 0. induction s as [|c s IH]; intros i; [reflexivity|].
  simpl. now rewrite IH.
Qed.

(** Looking a name up in the flattened object gives the last declaration of
    that name. *)
Lemma getNested_emitted config name :
  obj_get (getNested config) name = last_write (emitted kebabCase config) name.
Proof.
  revert name.
  assert (scalar : forall c, isObject c = false ->
            forall name, obj_get (getNested c) name
                         = last_write (emitted kebabCase c) name).
  { intros c Hc name. rewrite getNested_forEach, emitted_entries.
    apply (forEach_emitted _ _ _ [] []); [|constructor|reflexivity].
    eapply Forall_impl; [|apply (entries_leaves _ Hc)].
    cbn beta. intros kv H1 H2. congruence. }
  induction config as [| | | | |props IH] using value_ind'; try (now apply scalar).
  intros name. rewrite getNested_forEach, emitted_entries.
  apply (forEach_emitted _ _ _ [] []); [|constructor|reflexivity].
  eapply Forall_impl; [|exact IH].
  intros kv Hkv _. split; [apply NoDup_getNested | exact Hkv].
Qed.

End Refine.

(** ** Unique names *)

Lemma nodupb_NoDup l : nodupb l = true <-> NoDup l.
Proof.
  induction l as [|x l IH]; simpl.
  - split; [constructor | reflexivity].
  - rewrite andb_true_iff, negb_true_iff, IH, NoDup_cons_iff.
    assert (E : existsb (String.eqb x) l = false <-> ~ In x l).
    { rewrite <- not_true_iff_false, existsb_exists. split.
      - intros H Hin. apply H. exists x. split; [exact Hin | apply String.eqb_refl].
      - intros H [y [Hin Hy]]. apply String.eqb_eq in Hy. now subst. }
    now rewrite E.
Qed.

Lemma segment_tail c s : segment (String c s) = true -> segment s = true.
Proof.
  cbn [segment]. destruct (Ascii.eqb c "-"); [|auto].
  destruct s; [discriminate|]. now intros [_ H]%andb_true_iff.
Qed.

Lemma segment_no_token k r : segment (k ++ token ++ r)%string = false.
Proof.
  induction k as [|c k IH].
  - reflexivity.
  - apply not_true_iff_false. intros H.
    change (segment (String c (k ++ token ++ r)) = true) in H.
    apply segment_tail in H. rewrite IH in H. discriminate.
Qed.

Lemma segment_token_first k r :
  segment k = true -> strip_prefix token (k ++ token ++ r)%string <> None -> k = EmptyString.
Proof.
  intros Hs Hp. destruct k as [|c k]; [reflexivity | exfalso].
  unfold token in Hp. cbn [append strip_prefix] in Hp.
  destruct (Ascii.eqb_spec "-"%char c) as [<-|]; [|congruence].
  destruct k as [|c' k]; [cbn [segment] in Hs; discriminate|].
  cbn [append strip_prefix] in Hp.
  destruct (Ascii.eqb_spec "-"%char c') as [<-|]; [|congruence].
  cbn [segment] in Hs. discriminate.
Qed.

(** Where a segment ends is determined by the first token after it. *)
Lemma segment_split k1 k2 r1 r2 :
  segment k1 = true -> segment k2 = true ->
  (k1 ++ token ++ r1)%string = (k2 ++ token ++ r2)%string -> k1 = k2.
Proof.
  revert k2. induction k1 as [|c k1 IH]; intros k2 H1 H2 E.
  - symmetry. apply (segment_token_first k2 r2 H2). rewrite <- E. discriminate.
  - destruct k2 as [|c2 k2].
    + apply (segment_token_first _ r1 H1). rewrite E. discriminate.
    + cbn [append] in E. injection E as -> E.
      f_equal. apply IH; [eapply segment_tail; eauto | eapply segment_tail; eauto | exact E].
Qed.

Section Unique.

Variable kebabCase : string -> string.
Hypothesis kebab_segment : forall key, segment (kebabCase key) = true.
Local Abbreviation headed := (headed kebabCase).

Lemma keys_rekey p o : keys (map (rekey p) o) = map (append p) (keys o).
Proof. unfold keys. rewrite !map_map. reflexivity. Qed.

Lemma NoDup_map_append p l : NoDup l -> NoDup (map (append p) l).
Proof.
  induction 1 as [|x l Hx Hl IH]; simpl; constructor; [|exact IH].
  rewrite in_map_iff. intros [y [E Hy]]. apply append_inj in E. now subst.
Qed.

Lemma declare_headed emit key v name :
  In name (keys (declare kebabCase emit (key, v))) -> headed key name.
Proof.
  unfold declare. destruct (isObject v).
  - rewrite keys_rekey, in_map_iff. intros [r [<- _]]. right. exists r.
    symmetry. apply append_assoc.
  - simpl. intros [<-|[]]. now left.
Qed.

Lemma headed_same key key' name :
  headed key name -> headed key' name -> kebabCase key = kebabCase key'.
Proof.
  intros [->|[r ->]] [E|[r' E]].
  - exact E.
  - pose proof (kebab_segment key) as H. rewrite E, segment_no_token in H. discriminate.
  - pose proof (kebab_segment key') as H. rewrite <- E, segment_no_token in H. discriminate.
  - eapply segment_split; eauto.
Qed.

Lemma flat_map_headed emit props name :
  In name (keys (flat_map (declare kebabCase emit) props)) ->
  exists kv, In kv props /\ headed (fst kv) name.
Proof.
  induction props as [|[key v] props IH]; simpl; [tauto|].
  unfold keys. rewrite map_app, in_app_iff. intros [H|H].
  - exists (key, v). split; [now left | now apply (declare_headed emit key v)].
  - destruct (IH H) as [kv [Hin Hh]]. exists kv. split; [now right | exact Hh].
Qed.

Lemma NoDup_declare emit key v :
  (isObject v = true -> NoDup (keys (emit v))) ->
  NoDup (keys (declare kebabCase emit (key, v))).
Proof.
  intros H. unfold declare. destruct (isObject v).
  - rewrite keys_rekey. apply NoDup_map_append. now apply H.
  - simpl. constructor; [tauto | constructor].
Qed.

Lemma NoDup_flat_map emit props :
  NoDup (map (fun kv => kebabCase (fst kv)) props) ->
  Forall (fun kv => isObject (snd kv) = true -> NoDup (keys (emit (snd kv)))) props ->
  NoDup (keys (flat_map (declare kebabCase emit) props)).
Proof.
  induction props as [|[key v] props IH]; simpl; intros Hk Hv; [constructor|].
  inversion Hk as [|? ? Hnotin Hk']; subst. inversion Hv as [|? ? Hv1 Hv']; subst.
  unfold keys. rewrite map_app. apply NoDup_app.
  - now apply NoDup_declare.
  - now apply IH.
  - intros name H1 H2. apply declare_headed in H1.
    apply flat_map_headed in H2. destruct H2 as [[key' v'] [Hin Hh]].
    apply Hnotin. rewrite (headed_same _ _ _ H1 Hh).
    apply (in_map (fun kv => kebabCase (fst kv)) _ _ Hin).
Qed.

Lemma NoDup_emitted config :
  isObject config = true ->
  distinct_keys kebabCase config = true -> NoDup (keys (emitted kebabCase config)).
Proof.
  induction config as [| | | | |props IH] using value_ind'; try discriminate.
  intros _ H. simpl in H. apply andb_true_iff in H as [Hk Hc].
  rewrite emitted_entries. apply NoDup_flat_map.
  - now apply nodupb_NoDup.
  - rewrite forallb_forall in Hc. rewrite Forall_forall in *.
    intros kv Hin Hobj. apply IH; auto.
Qed.

End Unique.

Lemma leaves_scalar v : isObject v = false -> leaves v = 1.
Proof. now destruct v. Qed.

Lemma same_names_length (a b : obj) :
  NoDup (keys a) -> NoDup (keys b) ->
  (forall name, obj_get a name = last_write b name) -> length a = length b.
Proof.
  intros Ha Hb H. rewrite <- (length_map fst a), <- (length_map fst b).
  apply Permutation_length, NoDup_Permutation; [exact Ha | exact Hb |].
  intros name. fold (keys a) (keys b).
  destruct (in_dec string_dec name (keys a)) as [Hin|Hout];
    destruct (in_dec string_dec name (keys b)) as [Hin'|Hout']; try tauto; exfalso.
  - apply last_write_None in Hout'. rewrite <- H in Hout'.
    now apply obj_get_None in Hout'.
  - apply obj_get_None in Hout. rewrite H in Hout.
    now apply last_write_None in Hout.
Qed.

(** Two objects that agree on every lookup hold the same entries. *)
Lemma same_lookup_same_entries (a b : obj) :
  NoDup (keys a) -> NoDup (keys b) ->
  (forall name, obj_get a name = obj_get b name) -> Permutation a b.
Proof.
  intros Ha Hb H. apply NoDup_Permutation.
  - exact (NoDup_map_inv fst a Ha).
  - exact (NoDup_map_inv fst b Hb).
  - intros [k v]. split; intros Hin.
    + apply obj_get_In. rewrite <- H. now apply In_obj_get.
    + apply obj_get_In. rewrite H. now apply In_obj_get.
Qed.

Section Counting.
Variable kebabCase : string -> string.

Lemma length_emitted config :
  isObject config = true -> length (emitted kebabCase config) = leaves config.
Proof.
  induction config as [| | | | |props IH] using value_ind'; try discriminate.
  intros _. rewrite emitted_entries. cbn [entries own_entries leaves].
  induction IH as [|[key v] props Hv _ IHprops]; [reflexivity|].
  cbn [flat_map map list_sum fold_right snd]. rewrite length_app, IHprops. f_equal.
  unfold declare. cbn [snd] in Hv. destruct (isObject v) eqn:E.
  - rewrite length_map. now apply Hv.
  - now rewrite leaves_scalar.
Qed.

(** Looking a name up in the result of [getCSSVariables] gives the last
    declaration of that name, under the prefix. *)
Lemma getCSSVariables_emitted styles name :
  obj_get (getCSSVariables kebabCase styles) name
  = last_write (map (rekey (prefix ++ token))
                  (emitted kebabCase (default_styles styles))) name.
Proof.
  unfold getCSSVariables.
  rewrite (obj_get_mapKeys (prefix ++ token) _ _ _
             (fun key => append_assoc _ _ _) (NoDup_getNested _ _)).
  rewrite last_write_rekey. destruct (strip_prefix _ name); [|reflexivity].
  apply getNested_emitted.
Qed.

Lemma NoDup_getCSSVariables styles : NoDup (keys (getCSSVariables kebabCase styles)).
Proof. apply NoDup_mapKeys. Qed.

End Counting.

Section NoOverride.
Variable kebabCase : string -> string.
Hypothesis kebab_segment : forall key, segment (kebabCase key) = true.

Lemma distinct_no_override props :
  distinct_keys kebabCase (VObj props) = true ->
  length (getCSSVariables kebabCase (VObj props)) = leaves (VObj props).
Proof.
  intros H.
  rewrite <- (length_emitted kebabCase (VObj props) eq_refl).
  rewrite <- (length_map (rekey (prefix ++ token)) (emitted kebabCase (VObj props))).
  apply same_names_length.
  - apply NoDup_getCSSVariables.
  - rewrite keys_rekey. apply NoDup_map_append.
    now apply NoDup_emitted.
  - intros name. apply getCSSVariables_emitted.
Qed.
End NoOverride.

(** ** [kebabCase] yields segments *)

Module KebabFacts.

Lemma all_impl (p q : ascii -> bool) s :
  (forall c, p c = true -> q c = true) -> all p s = true -> all q s = true.
Proof.
  intros H. induction s as [|c s IH]; simpl; [reflexivity|].
  intros [Hc Hs]%andb_true_iff. now rewrite (H _ Hc), IH.
Qed.

Lemma all_app p a b : all p (a ++ b)%string = all p a && all p b.
Proof. induction a as [|c a IH]; simpl; [reflexivity|]. now rewrite IH, andb_assoc. Qed.

Lemma take_while_all p s : all p (take_while p s) = true.
Proof.
  induction s as [|c s IH]; cbn [take_while all]; [reflexivity|].
  destruct (p c) eqn:E; [|reflexivity]. cbn [all]. now rewrite E, IH.
Qed.

Lemma take_while_nonempty p c s :
  p c = true -> take_while p (String c s) <> EmptyString.
Proof. cbn [take_while]. now intros ->. Qed.

Lemma capitals_all s : all is_upper (capitals s) = true.
Proof.
  induction s as [|c s IH]; cbn [capitals all]; [reflexivity|].
  destruct (is_upper c) eqn:E; [|reflexivity].
  destruct (negb (starts_with is_lower s)); [|reflexivity].
  cbn [andb all]. now rewrite E, IH.
Qed.

Lemma lower_no_dash c : is_lower c = true -> no_dash c = true.
Proof.
  unfold no_dash. destruct (Ascii.eqb_spec c "-") as [->|]; [discriminate | reflexivity].
Qed.

Lemma upper_no_dash c : is_upper c = true -> no_dash c = true.
Proof.
  unfold no_dash. destruct (Ascii.eqb_spec c "-") as [->|]; [discriminate | reflexivity].
Qed.

Lemma digit_no_dash c : is_digit c = true -> no_dash c = true.
Proof.
  unfold no_dash. destruct (Ascii.eqb_spec c "-") as [->|]; [discriminate | reflexivity].
Qed.

Lemma alnum_no_dash c : is_alnum c = true -> no_dash c = true.
Proof.
  unfold is_alnum, is_alpha. intros [[H|H]%orb_true_iff|H]%orb_true_iff;
    auto using lower_no_dash, upper_no_dash, digit_no_dash.
Qed.

Lemma word_intro s : s <> EmptyString -> all no_dash s = true -> word s = true.
Proof.
  intros Hne Hall. unfold word. rewrite Hall, andb_true_r.
  apply negb_true_iff, String.eqb_neq, Hne.
Qed.

Lemma ordinal_suffix d r suffix :
  ordinal d r = Some suffix -> all no_dash suffix = true.
Proof.
  unfold ordinal.
  destruct (strip_prefix _ r) as [r1|].
  - destruct (starts_with _ r1); [discriminate|]. intros [= <-].
    destruct (Ascii.eqb d "1"), (Ascii.eqb d "2"), (Ascii.eqb d "3"); reflexivity.
  - destruct (strip_prefix _ r) as [r1|]; [|discriminate].
    destruct (starts_with _ r1); [discriminate|]. intros [= <-].
    destruct (Ascii.eqb d "1"), (Ascii.eqb d "2"), (Ascii.eqb d "3"); reflexivity.
Qed.

Lemma append_nonempty (a b : string) : a <> EmptyString -> (a ++ b)%string <> EmptyString.
Proof. destruct a; [congruence | discriminate]. Qed.

Lemma reAsciiWord_word s w : reAsciiWord s = Some w -> word w = true.
Proof.
  unfold reAsciiWord. destruct s as [|c s]; [discriminate|]. cbn [starts_with].
  destruct (is_alnum c) eqn:E; [|discriminate]. intros [= <-].
  apply word_intro; [now apply (take_while_nonempty _ c s)|].
  exact (all_impl _ _ _ alnum_no_dash (take_while_all is_alnum (String c s))).
Qed.

Lemma reUnicodeWord_word s w : reUnicodeWord s = Some w -> word w = true.
Proof.
  unfold reUnicodeWord. destruct s as [|c s]; [discriminate|].
  destruct (is_lower c) eqn:El.
  { intros [= <-]. apply word_intro; [now apply (take_while_nonempty _ c s)|].
    exact (all_impl _ _ _ lower_no_dash (take_while_all is_lower (String c s))). }
  destruct (is_upper c) eqn:Eu.
  { destruct (starts_with is_lower s) eqn:Es; intros [= <-].
    - apply word_intro; [discriminate|]. cbn [all].
      now rewrite (upper_no_dash _ Eu),
        (all_impl _ _ _ lower_no_dash (take_while_all is_lower s)).
    - apply word_intro.
      + cbn [capitals]. now rewrite Eu, Es.
      + exact (all_impl _ _ _ upper_no_dash (capitals_all (String c s))). }
  destruct (is_digit c) eqn:Ed; [|discriminate].
  pose proof (all_impl _ _ _ digit_no_dash (take_while_all is_digit (String c s))) as Hall.
  pose proof (take_while_nonempty is_digit c s Ed) as Hne.
  remember (take_while is_digit (String c s)) as digits eqn:Hdigits.
  remember (drop_while is_digit (String c s)) as r eqn:Hr.
  cbv zeta. destruct (ordinal (last_char c digits) r) as [suffix|] eqn:Eo;
    intros [= <-].
  - apply word_intro.
    + now apply append_nonempty.
    + rewrite all_app, Hall. exact (ordinal_suffix _ _ _ Eo).
  - now apply word_intro.
Qed.

Lemma match_all_words re :
  (forall s w, re s = Some w -> word w = true) ->
  forall s skip, Forall (fun w => word w = true) (match_all re skip s).
Proof.
  intros Hre. induction s as [|c s IH]; intros skip; cbn [match_all]; [constructor|].
  destruct skip as [|k]; [|apply IH].
  destruct (re (String c s)) as [w|] eqn:E; [|apply IH].
  constructor; [now apply (Hre _ _ E) | apply IH].
Qed.

Lemma to_lower_no_dash c : no_dash c = true -> no_dash (toLower c) = true.
Proof.
  unfold toLower. destruct (is_upper c) eqn:E; [|auto]. intros _.
  unfold no_dash. apply negb_true_iff, Ascii.eqb_neq. intros H.
  unfold is_upper in E. apply andb_true_iff in E as [E1 E2].
  apply Nat.leb_le in E1, E2.
  apply (f_equal nat_of_ascii) in H. rewrite nat_ascii_embedding in H by lia.
  change (nat_of_ascii "-") with 45 in H. lia.
Qed.

Lemma lower_word w : word w = true -> word (toLowerCase w) = true.
Proof.
  unfold word. intros [Hne Hall]%andb_true_iff. apply andb_true_iff. split.
  - destruct w; [discriminate | reflexivity].
  - clear Hne. induction w as [|c w IH]; simpl in *; [reflexivity|].
    apply andb_true_iff in Hall as [Hc Hw]. now rewrite (to_lower_no_dash _ Hc), IH.
Qed.

(** A word is a segment, and so is a segment with a dash and a word after
    it. *)
Lemma dashless_segment w : all no_dash w = true -> segment w = true.
Proof.
  induction w as [|c w IH]; cbn [segment all]; [reflexivity|].
  intros [Hc Hw]%andb_true_iff. unfold no_dash in Hc.
  apply negb_true_iff in Hc. rewrite Hc. auto.
Qed.

Lemma segment_two c c' s :
  segment (String c (String c' s))
  = (negb (Ascii.eqb c "-") || negb (Ascii.eqb c' "-")) && segment (String c' s).
Proof. cbn [segment]. destruct (Ascii.eqb c "-"); reflexivity. Qed.

Lemma segment_one c : segment (String c EmptyString) = negb (Ascii.eqb c "-").
Proof. cbn [segment]. destruct (Ascii.eqb c "-"); reflexivity. Qed.

Lemma segment_dash_word s w :
  segment s = true -> word w = true -> segment (s ++ "-" ++ w)%string = true.
Proof.
  intros Hs [Hne Hall]%andb_true_iff.
  destruct w as [|x w]; [discriminate|]. clear Hne.
  change ("-" ++ String x w)%string with (String "-" (String x w)).
  assert (Hw : segment (String "-" (String x w)) = true).
  { rewrite segment_two. apply andb_true_iff. split.
    - cbn [all] in Hall. apply andb_true_iff in Hall as [Hx _].
      unfold no_dash in Hx. now rewrite Hx, orb_true_r.
    - now apply dashless_segment. }
  induction s as [|c s IH]; [exact Hw|].
  destruct s as [|c' s].
  - rewrite segment_one in Hs. cbn [append]. rewrite segment_two, Hs, Hw. reflexivity.
  - rewrite segment_two in Hs. apply andb_true_iff in Hs as [Hc Hs].
    change (segment (String c (String c' (s ++ String "-" (String x w)))) = true).
    rewrite segment_two, Hc. cbn [andb]. apply (IH Hs).
Qed.

Lemma compound_segment ws :
  Forall (fun w => word w = true) ws -> segment (compound ws) = true.
Proof.
  intros H. destruct H as [|w ws Hw Hws]; [reflexivity|].
  unfold compound.
  assert (Hacc : segment (toLowerCase w) = true).
  { apply dashless_segment. apply lower_word in Hw.
    now apply andb_true_iff in Hw as [_ Hw]. }
  revert Hacc. generalize (toLowerCase w). clear Hw.
  induction Hws as [|w' ws Hw' _ IH]; intros acc Hacc; simpl; [exact Hacc|].
  apply IH. apply segment_dash_word; [exact Hacc | now apply lower_word].
Qed.

Lemma words_words s : Forall (fun w => word w = true) (words s).
Proof.
  unfold words, unicodeWords, asciiWords. destruct (hasUnicodeWord s);
    apply match_all_words; [apply reUnicodeWord_word | apply reAsciiWord_word].
Qed.

(** The dash-joined words of [kebabCase] form a segment. *)
Lemma kebabCase_segment key : segment (kebabCase key) = true.
Proof. apply compound_segment, words_words. Qed.

End KebabFacts.

Example array_index_examples :
  map array_index ["0"; "7"; "10"; "4294967294"; "01"; "4294967295"; "-1"; "1a"; ""]
  = [Some 0%N; Some 7%N; Some 10%N; Some 4294967294%N; None; None; None; None; None].
Proof. vm_compute. reflexivity. Qed.

Example property_order_examples :
  assign [] [("b", VNum 1); ("2", VNum 2); ("a", VNum 3); ("1", VNum 4); ("b", VNum 5)]
  = [("1", VNum 4); ("2", VNum 2); ("b", VNum 5); ("a", VNum 3)].
Proof. vm_compute. reflexivity. Qed.

Example getCSSVariables_examples :
  getCSSVariables Lodash.kebabCase
    (VObj [("color", VObj [("text", VStr "#000"); ("background", VStr "#fff")]);
           ("typography", VObj [("lineHeight", VStr "1.5"); ("fontSize", VNum 12)]);
           ("zIndex", VNum 0)])
  = [("--wp--color--text", VStr "#000"); ("--wp--color--background", VStr "#fff");
     ("--wp--typography--line-height", VStr "1.5");
     ("--wp--typography--font-size", VNum 12); ("--wp--z-index", VNum 0)]
  /\ getCSSVariables Lodash.kebabCase (VStr "ab")
     = [("--wp--0", VStr "a"); ("--wp--1", VStr "b")]
  /\ getCSSVariables Lodash.kebabCase VNull = [].
Proof. vm_compute. repeat split; reflexivity. Qed.

Example kebab_examples :
  map Lodash.kebabCase
    ["typography"; "lineHeight"; "line-height"; "Foo Bar"; "--foo-bar--";
     "fooBar"; "__FOO_BAR__"; "XMLHttpRequest"; "h1Size"; "1stPlace";
     "don't"; ""; "-1"; "ABc12th"]
  = ["typography"; "line-height"; "line-height"; "foo-bar"; "foo-bar";
     "foo-bar"; "foo-bar"; "xml-http-request"; "h-1-size"; "1st-place";
     "dont"; ""; "1"; "a-bc-12-th"].
Proof. vm_compute. reflexivity. Qed.


(** * The claims *)

(** ** Flattening into CSS variables *)

Section Flattening.

Variable kebabCase : string -> string.
Local Abbreviation getNested := (getNestedCSSVariables kebabCase).

Lemma getNested_snoc props entry :
  getNested (VObj (props ++ [entry]))
  = visit kebabCase getNested (getNested (VObj props)) entry.
Proof. cbn [getNestedCSSVariables]. now rewrite fold_left_app. Qed.

(** A scalar at the end of the mapping is assigned under its kebab-cased
    key. *)
Lemma getNested_scalar props key v name :
  isObject v = false ->
  obj_get (getNested (VObj (props ++ [(key, v)]))) name
  = if kebabCase key =? name then Some v else obj_get (getNested (VObj props)) name.
Proof.
  intros Hv. now rewrite getNested_snoc, (visit_scalar _ _ _ _ _ Hv), obj_get_set.
Qed.

(** A mapping at the end is flattened first; its variables are merged in
    under its kebab-cased key and the token, over what was there. *)
Lemma getNested_object props key v name :
  isObject v = true ->
  obj_get (getNested (VObj (props ++ [(key, v)]))) name
  = or_else
      match strip_prefix (kebabCase key ++ token) name with
      | Some r => obj_get (getNested v) r
      | None => None
      end
      (obj_get (getNested (VObj props)) name).
Proof.
  intros Hv. rewrite getNested_snoc, (visit_object _ _ _ _ _ Hv), obj_get_spread.
  cbn [own_entries].
  rewrite (last_write_NoDup _ _ (NoDup_mapKeys _ _)).
  rewrite (last_write_NoDup _ _ (NoDup_getNested _ _)).
  now rewrite (obj_get_mapKeys (kebabCase key ++ token) _ _ _
                 (fun k => append_assoc _ _ _) (NoDup_getNested _ _)).
Qed.

Lemma getCSSVariables_prefix styles name :
  obj_get (getCSSVariables kebabCase styles) name
  = match strip_prefix (prefix ++ token) name with
    | Some key => obj_get (getNested (default_styles styles)) key
    | None => None
    end.
Proof.
  unfold getCSSVariables.
  apply (obj_get_mapKeys (prefix ++ token) _ _ _
           (fun key => append_assoc _ _ _) (NoDup_getNested _ _)).
Qed.

Lemma emitted_flat props :
  Forall (fun kv => isObject (snd kv) = false) props ->
  emitted kebabCase (VObj props) = map (fun kv => (kebabCase (fst kv), snd kv)) props.
Proof.
  cbn [emitted]. induction 1 as [|[key v] props Hv _ IH]; [reflexivity|].
  cbn [flat_map map]. rewrite IH. cbn [snd] in Hv. unfold declare. now rewrite Hv.
Qed.

(** Without nested mappings the result is the mapping that sends
    [--wp--] followed by the kebab-cased key to the value, entry by entry. *)
Lemma getCSSVariables_flat props name :
  Forall (fun kv => isObject (snd kv) = false) props ->
  obj_get (getCSSVariables kebabCase (VObj props)) name
  = obj_get
      (assign []
         (map (fun kv => ((prefix ++ token ++ kebabCase (fst kv))%string, snd kv)) props))
      name.
Proof.
  intros Hflat. rewrite getCSSVariables_emitted, obj_get_assign.
  cbn [default_styles]. rewrite (emitted_flat _ Hflat), map_map.
  rewrite (map_ext _ (fun kv => ((prefix ++ token ++ kebabCase (fst kv))%string, snd kv))).
  - now destruct (last_write _ name).
  - intros [key v]. unfold rekey. cbn [fst snd]. now rewrite append_assoc.
Qed.

End Flattening.

(** C1.  [getCSSVariables] flattens a style configuration as the
    specification describes.  The accumulator starts empty; a scalar at key
    [K] is stored under [kebabCase K]; a mapping at key [K] is flattened and
    every variable [R] of it is merged in under [kebabCase K ++ "--" ++ R],
    over what the accumulator held; in the end every key gets the prefix
    [--wp--].  A configuration without nested mappings yields, entry by
    entry, the value under [--wp--] followed by the kebab-cased key, and
    [{ typography: { lineHeight: "2" } }] yields
    [{ "--wp--typography--line-height": "2" }]. *)
Theorem C1_getCSSVariables_flattens :
  (forall kebabCase : string -> string,
      getNestedCSSVariables kebabCase (VObj []) = []
      /\ (forall props K v name,
             isObject v = false ->
             obj_get (getNestedCSSVariables kebabCase (VObj (props ++ [(K, v)]))) name
             = if kebabCase K =? name then Some v
               else obj_get (getNestedCSSVariables kebabCase (VObj props)) name)
      /\ (forall props K v name,
             isObject v = true ->
             obj_get (getNestedCSSVariables kebabCase (VObj (props ++ [(K, v)]))) name
             = or_else
                 match strip_prefix (kebabCase K ++ "--") name with
                 | Some R => obj_get (getNestedCSSVariables kebabCase v) R
                 | None => None
                 end
                 (obj_get (getNestedCSSVariables kebabCase (VObj props)) name))
      /\ (forall props name,
             obj_get (getCSSVariables kebabCase (VObj props)) name
             = match strip_prefix "--wp--" name with
               | Some key => obj_get (getNestedCSSVariables kebabCase (VObj props)) key
               | None => None
               end)
      /\ (forall props,
             Forall (fun kv => isObject (snd kv) = false) props ->
             let comprehension :=
               assign []
                 (map (fun kv => (("--wp--" ++ kebabCase (fst kv))%string, snd kv)) props) in
             (forall name,
                 obj_get (getCSSVariables kebabCase (VObj props)) name
                 = obj_get comprehension name)
             /\ Permutation (getCSSVariables kebabCase (VObj props)) comprehension))
  /\ getCSSVariables Lodash.kebabCase
       (VObj [("typography", VObj [("lineHeight", VStr "2")])])
     = [("--wp--typography--line-height", VStr "2")].
Proof.
  split; [|vm_compute; reflexivity].
  intros kebabCase. split; [reflexivity|].
  split; [intros; now apply getNested_scalar|].
  split; [intros; now apply getNested_object|].
  split; [intros; apply getCSSVariables_prefix|].
  intros props Hflat comprehension.
  assert (H : forall name,
             obj_get (getCSSVariables kebabCase (VObj props)) name
             = obj_get comprehension name)
    by (intros name; now apply getCSSVariables_flat).
  split; [exact H|].
  apply same_lookup_same_entries;
    [apply NoDup_getCSSVariables | apply NoDup_assign; constructor | exact H].
Qed.

(** The flat case of C1 on a configuration with a camel-cased key. *)
Lemma C1_witness :
  Forall (fun kv => isObject (snd kv) = false)
    [("lineHeight", VStr "2"); ("color", VBool false)]
  /\ obj_get
       (getCSSVariables Lodash.kebabCase
          (VObj [("lineHeight", VStr "2"); ("color", VBool false)]))
       "--wp--line-height"
     = Some (VStr "2").
Proof.
  split; [repeat constructor|].
  destruct C1_getCSSVariables_flattens as [H _].
  destruct (H Lodash.kebabCase) as (_ & _ & _ & _ & Hflat).
  destruct (Hflat [("lineHeight", VStr "2"); ("color", VBool false)]) as [Hget _];
    [repeat constructor|].
  rewrite Hget. vm_compute. reflexivity.
Defined.

(** ** No name is written twice *)

(** C7, as stated, fails: distinct keys [lineHeight] and [line-height] are
    both kebab-cased to [line-height], so the second scalar overrides the
    first and one variable is left for two scalars. *)
Lemma C7_counterexample :
  let config := VObj [("lineHeight", VStr "1"); ("line-height", VStr "2")] in
  distinct_keys (fun key => key) config = true
  /\ getCSSVariables Lodash.kebabCase config = [("--wp--line-height", VStr "2")]
  /\ length (getCSSVariables Lodash.kebabCase config) <> leaves config.
Proof. vm_compute. repeat split; try reflexivity. discriminate. Qed.

(** C7, amended.  When the kebab-cased keys of every mapping of the
    configuration are pairwise distinct, and [kebabCase] returns dash-joined
    words (no dash followed by a dash or by the end), no variable is written
    twice: the flattened variables are as many as the scalars of the
    configuration, under pairwise distinct names. *)
Theorem C7_distinct_kebab_keys_never_override :
  forall kebabCase : string -> string,
    (forall key, segment (kebabCase key) = true) ->
    forall props,
      distinct_keys kebabCase (VObj props) = true ->
      NoDup (keys (getCSSVariables kebabCase (VObj props)))
      /\ length (getCSSVariables kebabCase (VObj props)) = leaves (VObj props).
Proof.
  intros kebabCase Hseg props Hd. split.
  - apply NoDup_getCSSVariables.
  - now apply distinct_no_override.
Qed.

Lemma C7_witness :
  let props :=
    [("typography", VObj [("lineHeight", VStr "2")]);
     ("color", VObj [("text", VStr "#000"); ("background", VStr "#fff")])] in
  distinct_keys Lodash.kebabCase (VObj props) = true
  /\ length (getCSSVariables Lodash.kebabCase (VObj props)) = 3.
Proof.
  intros props. split; [vm_compute; reflexivity|].
  exact (proj2 (C7_distinct_kebab_keys_never_override Lodash.kebabCase
                  KebabFacts.kebabCase_segment props eq_refl)).
Defined.

(** ** Scalars are kept as they are *)

Section Scalars.

Variable kebabCase : string -> string.

Lemma leaf_paths_nonempty config path v :
  In (path, v) (leaf_paths config) -> path <> [].
Proof.
  destruct config as [| | | | |props]; cbn [leaf_paths]; try tauto.
  intros Hin. apply in_flat_map in Hin. destruct Hin as [[k x] [_ Hin]].
  cbn [fst snd] in Hin. destruct (isObject x).
  - apply in_map_iff in Hin. destruct Hin as [[p' v'] [E _]]. now injection E as <- _.
  - destruct Hin as [E|[]]. now injection E as <- _.
Qed.

Lemma concat_cons key path :
  path <> [] ->
  String.concat token (kebabCase key :: map kebabCase path)
  = ((kebabCase key ++ token) ++ String.concat token (map kebabCase path))%string.
Proof.
  destruct path as [|k path]; [congruence|]. intros _.
  cbn [map String.concat]. now rewrite append_assoc.
Qed.

(** The traversal declares the scalars of the configuration, each under the
    kebab-cased keys of its path joined by the token. *)
Lemma emitted_leaf_paths config :
  isObject config = true ->
  emitted kebabCase config
  = map (fun pv => (String.concat token (map kebabCase (fst pv)), snd pv))
      (leaf_paths config).
Proof.
  induction config as [| | | | |props IH] using value_ind'; try discriminate.
  intros _. cbn [emitted leaf_paths].
  induction props as [|[k x] props IHprops]; [reflexivity|].
  inversion IH as [|? ? Hx Hrest]; subst. cbn [flat_map fst snd].
  rewrite map_app, <- (IHprops Hrest). f_equal.
  unfold declare. destruct (isObject x) eqn:Hobj; [|reflexivity].
  cbn [snd] in Hx. rewrite (Hx Hobj), !map_map.
  apply map_ext_in. intros [path v] Hin. unfold rekey. cbn [fst snd map].
  now rewrite (concat_cons k path (leaf_paths_nonempty x path v Hin)).
Qed.

Lemma declared_leaf_paths props :
  map (rekey (prefix ++ token)) (emitted kebabCase (VObj props))
  = map (css_declaration kebabCase) (leaf_paths (VObj props)).
Proof. now rewrite (emitted_leaf_paths (VObj props) eq_refl), map_map. Qed.

Lemma leaf_last_write props name :
  obj_get (getCSSVariables kebabCase (VObj props)) name
  = last_write (map (css_declaration kebabCase) (leaf_paths (VObj props))) name.
Proof.
  rewrite getCSSVariables_emitted. cbn [default_styles].
  now rewrite declared_leaf_paths.
Qed.

Lemma leaf_named props path v :
  In (path, v) (leaf_paths (VObj props)) ->
  In (css_variable kebabCase path) (keys (getCSSVariables kebabCase (VObj props))).
Proof.
  intros Hin.
  destruct (in_dec string_dec (css_variable kebabCase path)
              (keys (getCSSVariables kebabCase (VObj props))))
    as [H|Hout]; [exact H | exfalso].
  apply obj_get_None in Hout. rewrite leaf_last_write in Hout.
  apply last_write_None in Hout. apply Hout.
  apply (in_map fst _ _ (in_map (css_declaration kebabCase) _ _ Hin)).
Qed.

Lemma leaf_kept props path v :
  (forall k, segment (kebabCase k) = true) ->
  distinct_keys kebabCase (VObj props) = true ->
  In (path, v) (leaf_paths (VObj props)) ->
  obj_get (getCSSVariables kebabCase (VObj props)) (css_variable kebabCase path)
  = Some v.
Proof.
  intros Hseg Hd Hin. rewrite leaf_last_write.
  assert (Hnd : NoDup (keys (map (css_declaration kebabCase) (leaf_paths (VObj props))))).
  { rewrite <- declared_leaf_paths, keys_rekey. apply NoDup_map_append.
    now apply (NoDup_emitted kebabCase Hseg). }
  rewrite (last_write_NoDup _ _ Hnd). apply (In_obj_get _ _ _ Hnd).
  apply (in_map (css_declaration kebabCase) _ _ Hin).
Qed.

End Scalars.

(** C8, as stated, fails: the scalar [0] at [lineHeight] is a non-object
    leaf of the configuration, yet it is the value of no variable, because
    the later key [line-height] flattens to the same name and overrides
    it. *)
Lemma C8_counterexample :
  let config := VObj [("lineHeight", VNum 0); ("line-height", VStr "2")] in
  In (["lineHeight"], VNum 0) (leaf_paths config)
  /\ getCSSVariables Lodash.kebabCase config = [("--wp--line-height", VStr "2")]
  /\ obj_get (getCSSVariables Lodash.kebabCase config)
       (css_variable Lodash.kebabCase ["lineHeight"])
     <> Some (VNum 0).
Proof. vm_compute. split; [now left|]. split; [reflexivity | discriminate]. Qed.

(** C8, amended.  The empty configuration gives the empty mapping.  Every
    scalar of the configuration, at any depth and whatever its truth value,
    is written as it is under the variable named after its path: each
    variable holds the last scalar, in traversal order, whose path flattens
    to its name, the name of every scalar is in the result, and when the
    kebab-cased keys of every mapping are pairwise distinct (with
    [kebabCase] returning dash-joined words) every scalar is the value of
    its own variable.  The examples hold [false], [0], the empty string and
    [null], also three levels deep. *)
Theorem C8_empty_config_and_falsy_scalars :
  (forall kebabCase : string -> string,
      getCSSVariables kebabCase (VObj []) = []
      /\ (forall props name,
             obj_get (getCSSVariables kebabCase (VObj props)) name
             = last_write
                 (map (css_declaration kebabCase) (leaf_paths (VObj props))) name)
      /\ (forall props path v,
             In (path, v) (leaf_paths (VObj props)) ->
             In (css_variable kebabCase path)
               (keys (getCSSVariables kebabCase (VObj props))))
      /\ (forall props path v,
             (forall k, segment (kebabCase k) = true) ->
             distinct_keys kebabCase (VObj props) = true ->
             In (path, v) (leaf_paths (VObj props)) ->
             obj_get (getCSSVariables kebabCase (VObj props))
               (css_variable kebabCase path)
             = Some v))
  /\ getCSSVariables Lodash.kebabCase
       (VObj [("a", VBool false); ("b", VNum 0); ("c", VStr ""); ("d", VNull)])
     = [("--wp--a", VBool false); ("--wp--b", VNum 0); ("--wp--c", VStr "");
        ("--wp--d", VNull)]
  /\ getCSSVariables Lodash.kebabCase
       (VObj [("typography", VObj [("lineHeight", VNum 0)])])
     = [("--wp--typography--line-height", VNum 0)]
  /\ getCSSVariables Lodash.kebabCase
       (VObj [("a", VObj [("b", VObj [("c", VNum 0); ("d", VStr "");
                                      ("e", VBool false)])])])
     = [("--wp--a--b--c", VNum 0); ("--wp--a--b--d", VStr "");
        ("--wp--a--b--e", VBool false)].
Proof.
  split; [|repeat split; vm_compute; reflexivity].
  intros kebabCase. split; [reflexivity|].
  split; [intros; apply leaf_last_write|].
  split; [intros; now apply (leaf_named kebabCase props path v)|].
  intros. now apply leaf_kept.
Qed.

Lemma C8_witness :
  let props :=
    [("fontSize", VNum 12);
     ("typography", VObj [("lineHeight", VStr ""); ("dropCap", VBool false)]);
     ("color", VObj [("text", VObj [("opacity", VNum 0)])])] in
  (In (["typography"; "dropCap"], VBool false) (leaf_paths (VObj props))
   /\ In (["color"; "text"; "opacity"], VNum 0) (leaf_paths (VObj props))
   /\ distinct_keys Lodash.kebabCase (VObj props) = true)
  /\ obj_get (getCSSVariables Lodash.kebabCase (VObj props))
       "--wp--typography--drop-cap"
     = Some (VBool false)
  /\ obj_get (getCSSVariables Lodash.kebabCase (VObj props))
       "--wp--color--text--opacity"
     = Some (VNum 0)
  /\ In "--wp--color--text--opacity"%string
       (keys (getCSSVariables Lodash.kebabCase (VObj props))).
Proof.
  intros props.
  assert (H1 : In (["typography"; "dropCap"], VBool false) (leaf_paths (VObj props)))
    by (vm_compute; tauto).
  assert (H2 : In (["color"; "text"; "opacity"], VNum 0) (leaf_paths (VObj props)))
    by (vm_compute; tauto).
  split; [split; [exact H1 | split; [exact H2 | reflexivity]]|].
  destruct C8_empty_config_and_falsy_scalars as [H _].
  destruct (H Lodash.kebabCase) as (_ & _ & Hnamed & Hkept).
  split; [|split].
  - exact (Hkept props ["typography"; "dropCap"] (VBool false)
             KebabFacts.kebabCase_segment eq_refl H1).
  - exact (Hkept props ["color"; "text"; "opacity"] (VNum 0)
             KebabFacts.kebabCase_segment eq_refl H2).
  - exact (Hnamed props ["color"; "text"; "opacity"] (VNum 0) H2).
Defined.

(** ** Inline styles *)

Lemma has_reach v key rest :
  has v (key :: rest) = match reach v (key :: rest) with Some _ => true | None => false end.
Proof.
  revert v key. induction rest as [|key' rest IH]; intros v key; cbn [has reach].
  - destruct (nullish v); [reflexivity|]. now destruct (obj_get (own_entries v) key).
  - destruct (nullish v); [reflexivity|].
    destruct (obj_get (own_entries v) key) as [x|]; [apply IH | reflexivity].
Qed.

Lemma get_reach v key rest x :
  reach v (key :: rest) = Some x -> get v (key :: rest) = x.
Proof.
  revert v key. induction rest as [|key' rest IH]; intros v key; cbn [get reach].
  - destruct (nullish v); [discriminate|]. unfold prop.
    destruct (obj_get (own_entries v) key); [now intros [= ->] | discriminate].
  - destruct (nullish v); [discriminate|]. unfold prop.
    destruct (obj_get (own_entries v) key) as [y|]; [apply IH | discriminate].
Qed.

Lemma getInlineStyles_table styles :
  getInlineStyles styles = flat_map (inline_entry (default_styles styles)) mappings.
Proof.
  unfold getInlineStyles, mappings, inline_entry.
  cbn [fold_left flat_map fst snd]. rewrite !has_reach.
  destruct (reach (default_styles styles) ["typography"; "lineHeight"]) as [a|] eqn:Ea;
    destruct (reach (default_styles styles) ["color"; "background"]) as [b|] eqn:Eb;
    destruct (reach (default_styles styles) ["color"; "text"]) as [c|] eqn:Ec;
    rewrite ?(get_reach _ _ _ _ Ea), ?(get_reach _ _ _ _ Eb), ?(get_reach _ _ _ _ Ec);
    reflexivity.
Qed.

(** C4.  [getInlineStyles] goes through the three pairs of its table in
    the order of their declaration and copies the value at the source path
    under the output name exactly when the path exists.  So the keys of the
    output are among [lineHeight], [backgroundColor] and [color], in that
    order whatever the order of the input; a path that holds a falsy value
    is copied, and a path that is absent leaves no key at all. *)
Theorem C4_getInlineStyles_fixed_pairs :
  (forall styles,
      getInlineStyles styles
      = flat_map (inline_entry (default_styles styles))
          [ ("lineHeight", ["typography"; "lineHeight"]);
            ("backgroundColor", ["color"; "background"]);
            ("color", ["color"; "text"]) ])
  /\ (forall styles,
         incl (keys (getInlineStyles styles))
           ["lineHeight"; "backgroundColor"; "color"])
  /\ (forall styles,
         keys (getInlineStyles styles)
         = filter
             (fun k => match obj_get (getInlineStyles styles) k with
                       | Some _ => true
                       | None => false
                       end)
             ["lineHeight"; "backgroundColor"; "color"])
  /\ getInlineStyles
       (VObj [("color", VObj [("text", VStr "#fff"); ("background", VStr "#000")]);
              ("typography", VObj [("lineHeight", VStr "1.4")])])
     = [("lineHeight", VStr "1.4"); ("backgroundColor", VStr "#000");
        ("color", VStr "#fff")]
  /\ getInlineStyles
       (VObj [("typography", VObj [("lineHeight", VStr "")]);
              ("color", VObj [("text", VNum 0); ("background", VBool false)])])
     = [("lineHeight", VStr ""); ("backgroundColor", VBool false); ("color", VNum 0)]
  /\ getInlineStyles
       (VObj [("typography", VObj [("lineHeight", VUndefined)]);
              ("color", VObj [("text", VNull)])])
     = [("lineHeight", VUndefined); ("color", VNull)]
  /\ getInlineStyles (VObj [("typography", VObj []); ("color", VStr "red")]) = [].
Proof.
  split; [exact getInlineStyles_table|].
  split; [|split; [|repeat split; vm_compute; reflexivity]].
  - intros styles k. rewrite getInlineStyles_table. unfold mappings, inline_entry.
    cbn [flat_map fst snd].
    destruct (reach _ ["typography"; "lineHeight"]);
      destruct (reach _ ["color"; "background"]);
      destruct (reach _ ["color"; "text"]); cbn; tauto.
  - intros styles. rewrite getInlineStyles_table. unfold mappings, inline_entry.
    cbn [flat_map fst snd].
    destruct (reach _ ["typography"; "lineHeight"]);
      destruct (reach _ ["color"; "background"]);
      destruct (reach _ ["color"; "text"]); reflexivity.
Qed.

(** ** The filters *)

Lemma callback_ind' (P : callback -> Prop) :
  (forall f, P (Host f)) ->
  (forall settings, P (Wrapper None settings)) ->
  (forall existing settings, P existing -> P (Wrapper (Some existing) settings)) ->
  forall cb, P cb.
Proof.
  intros HH HN HS.
  refine (fix F (cb : callback) : P cb :=
            match cb with
            | Host f => HH f
            | Wrapper None settings => HN settings
            | Wrapper (Some existing) settings => HS existing settings (F existing)
            end).
Qed.

Lemma update_same {A : Type} (h : nat -> A) l a : update h l a l = a.
Proof. unfold update. now rewrite Nat.eqb_refl. Qed.

Lemma update_other {A : Type} (h : nat -> A) l a l' : l' <> l -> update h l a l' = h l'.
Proof. unfold update. intros H. apply Nat.eqb_neq in H. now rewrite H. Qed.

Lemma NoDup_getInlineStyles styles : NoDup (keys (getInlineStyles styles)).
Proof.
  unfold getInlineStyles. generalize mappings. intros table.
  assert (H : NoDup (keys [])) by constructor. revert H.
  generalize (@nil (string * value)).
  induction table as [|[styleKey objectKey] table IH]; intros acc H; cbn [fold_left].
  - exact H.
  - apply IH. destruct (has _ objectKey); [now apply NoDup_set | exact H].
Qed.

Section Filters.

Variable kebabCase : string -> string.
Variables COLOR_SUPPORT_KEY LINE_HEIGHT_SUPPRT_KEY : string.

Local Abbreviation supported :=
  (hasStyleSupport COLOR_SUPPORT_KEY LINE_HEIGHT_SUPPRT_KEY).
Local Abbreviation save :=
  (addSaveProps kebabCase COLOR_SUPPORT_KEY LINE_HEIGHT_SUPPRT_KEY).
Local Abbreviation invoke :=
  (call kebabCase COLOR_SUPPORT_KEY LINE_HEIGHT_SUPPRT_KEY).
Local Abbreviation computed := (computed_styles kebabCase).

Lemma NoDup_computed st style : NoDup (keys (computed st style)).
Proof.
  unfold computed_styles. destruct (truthy _);
    [apply NoDup_getCSSVariables | apply NoDup_getInlineStyles].
Qed.

Lemma addSaveProps_unsupported st props blockType attributes :
  supported (types st blockType) = false ->
  save st props blockType attributes = Normal (st, props).
Proof. unfold addSaveProps. now intros ->. Qed.

Lemma addSaveProps_nullish st props blockType attributes :
  supported (types st blockType) = true ->
  nullish attributes = true ->
  save st props blockType attributes = TypeError.
Proof. unfold addSaveProps. now intros -> ->. Qed.

Lemma addSaveProps_supported st props blockType attributes :
  supported (types st blockType) = true ->
  nullish attributes = false ->
  save st props blockType attributes
  = Normal
      (set_bag st props
         (obj_set (bags st props) "style"
            (VObj (spread (VObj (computed st (prop attributes "style")))
                     (prop (VObj (bags st props)) "style")))),
       props).
Proof.
  unfold addSaveProps, computed_styles. intros -> ->. cbn [negb].
  now destruct (truthy (hasGlobalStylesSupport st)).
Qed.

(** The entries of the merged style: those the prop bag had, and under
    every other key the computed ones. *)
Lemma obj_get_merged (computed0 : obj) existing k :
  NoDup (keys computed0) ->
  NoDup (keys (own_entries existing)) ->
  obj_get (spread (VObj computed0) existing) k
  = or_else (obj_get (own_entries existing) k) (obj_get computed0 k).
Proof.
  intros Hc He. rewrite obj_get_spread. cbn [own_entries].
  now rewrite (last_write_NoDup _ _ Hc), (last_write_NoDup _ _ He).
Qed.

Lemma save_style st props blockType attributes st' :
  save st props blockType attributes = Normal (st', props) ->
  supported (types st blockType) = true ->
  nullish attributes = false ->
  obj_get (bags st' props) "style"
  = Some (VObj (spread (VObj (computed st (prop attributes "style")))
                  (prop (VObj (bags st props)) "style")))
  /\ (forall k, k <> "style" -> obj_get (bags st' props) k = obj_get (bags st props) k)
  /\ (forall l, l <> props -> bags st' l = bags st l)
  /\ types st' = types st /\ window st' = window st /\ next_bag st' = next_bag st.
Proof.
  intros E Hs Ha. rewrite (addSaveProps_supported _ _ _ _ Hs Ha) in E.
  injection E as <-. cbn [set_bag bags types window next_bag].
  rewrite update_same. repeat split.
  - now rewrite obj_get_set, String.eqb_refl.
  - intros k Hk. rewrite obj_get_set. apply not_eq_sym in Hk.
    apply String.eqb_neq in Hk. now rewrite Hk.
  - intros l Hl. now apply update_other.
Qed.

(** Calling a callback leaves [window] and the descriptors alone. *)
Lemma invoke_frame cb : forall st attributes st' props,
  invoke cb st attributes = Normal (st', props) ->
  types st' = types st /\ window st' = window st.
Proof.
  assert (Hsave : forall st props settings attributes st' props',
             save st props settings attributes = Normal (st', props') ->
             types st' = types st /\ window st' = window st).
  { intros st props settings attributes st' props'. unfold addSaveProps.
    destruct (negb _); [now intros [= <- _]|].
    destruct (nullish attributes); [discriminate|].
    destruct (truthy _); now intros [= <- _]. }
  induction cb as [f|settings|existing settings IH] using callback_ind';
    intros st attributes st' props; cbn [call alloc].
  - now intros [= <- _].
  - intros E. destruct (Hsave _ _ _ _ _ _ E) as [Ht Hw]. now split.
  - destruct (invoke existing _ attributes) as [[st1 p1]|] eqn:E1; [|discriminate].
    intros E. destruct (IH _ _ _ _ E1) as [Ht Hw].
    destruct (Hsave _ _ _ _ _ _ E) as [Ht' Hw'].
    cbn [types window] in Ht, Hw. split; congruence.
Qed.

(** A callback returns whenever the attributes are an object. *)
Lemma invoke_total cb : forall st attributes,
  nullish attributes = false ->
  exists st' props, invoke cb st attributes = Normal (st', props).
Proof.
  assert (Hsave : forall st props settings attributes,
             nullish attributes = false ->
             exists st', save st props settings attributes = Normal (st', props)).
  { intros st props settings attributes Ha.
    destruct (supported (types st settings)) eqn:Hs.
    - eexists. now apply addSaveProps_supported.
    - eexists. now apply addSaveProps_unsupported. }
  induction cb as [f|settings|existing settings IH] using callback_ind';
    intros st attributes Ha; cbn [call alloc].
  - unfold alloc. eauto.
  - destruct (Hsave (mkStore (window st) (update (bags st) (next_bag st) [])
                       (S (next_bag st)) (types st))
                (next_bag st) settings attributes Ha) as [st' E].
    eauto.
  - destruct (IH (mkStore (window st) (update (bags st) (next_bag st) [])
                    (S (next_bag st)) (types st)) attributes Ha) as (st1 & p1 & E1).
    rewrite E1. destruct (Hsave st1 p1 settings attributes Ha) as [st' E]. eauto.
Qed.

End Filters.

(** ** [addSaveProps] *)

(** C2.  For a block type with style support, [addSaveProps] sets the
    [style] of the prop bag to the computed values overlaid with the entries
    the bag's [style] already had: an entry that was there keeps its value,
    and every other key has its computed value.  With the prop bag
    [{ style: { color: "red" } }] and the computed inline styles
    [{ lineHeight: "1.2", color: "blue" }] the style becomes
    [{ lineHeight: "1.2", color: "red" }]. *)
Theorem C2_addSaveProps_existing_style_wins :
  (forall kebabCase CK LK st props blockType attributes,
      hasStyleSupport CK LK (types st blockType) = true ->
      nullish attributes = false ->
      NoDup (keys (own_entries (prop (VObj (bags st props)) "style"))) ->
      let computed := computed_styles kebabCase st (prop attributes "style") in
      let existing := own_entries (prop (VObj (bags st props)) "style") in
      exists st',
        addSaveProps kebabCase CK LK st props blockType attributes = Normal (st', props)
        /\ obj_get (bags st' props) "style"
           = Some (VObj (assign (assign [] computed) existing))
        /\ forall k,
             obj_get (assign (assign [] computed) existing) k
             = or_else (obj_get existing k) (obj_get computed k))
  /\ (let st :=
        mkStore (VObj [])
          (fun _ => [("className", VStr "wp-block"); ("style", VObj [("color", VStr "red")])])
          1
          (fun _ => mkBlockType (String.eqb "__experimentalColor") [] None) in
      let style :=
        VObj [("color", VObj [("text", VStr "blue")]);
              ("typography", VObj [("lineHeight", VStr "1.2")])] in
      getInlineStyles style = [("lineHeight", VStr "1.2"); ("color", VStr "blue")]
      /\ match
           addSaveProps Lodash.kebabCase "__experimentalColor" "__experimentalLineHeight"
             st 0 0 (VObj [("style", style)])
         with
         | Normal (st', props) =>
             props = 0
             /\ bags st' props
                = [("className", VStr "wp-block");
                   ("style", VObj [("lineHeight", VStr "1.2"); ("color", VStr "red")])]
         | TypeError => False
         end).
Proof.
  split; [|vm_compute; repeat split; reflexivity].
  intros kebabCase CK LK st props blockType attributes Hs Ha Hnd computed existing.
  eexists. split; [now apply addSaveProps_supported|]. split.
  - cbn [set_bag bags]. now rewrite update_same, obj_get_set, String.eqb_refl.
  - intros k. apply (obj_get_merged computed (prop (VObj (bags st props)) "style"));
      [apply NoDup_computed | exact Hnd].
Qed.

Lemma C2_witness :
  let st :=
    mkStore (VObj [("__unstableSupportsGlobalStyles", VBool true)])
      (fun _ => [("style", VObj [("--wp--color--text", VStr "red")])])
      1
      (fun _ => mkBlockType (String.eqb "__experimentalLineHeight") [] None) in
  let attributes := VObj [("style", VObj [("color", VObj [("text", VStr "blue")])])] in
  hasStyleSupport "__experimentalColor" "__experimentalLineHeight" (types st 0) = true
  /\ exists st',
       addSaveProps Lodash.kebabCase "__experimentalColor" "__experimentalLineHeight"
         st 0 0 attributes
       = Normal (st', 0)
       /\ obj_get (bags st' 0) "style" = Some (VObj [("--wp--color--text", VStr "red")]).
Proof.
  intros st attributes. split; [reflexivity|].
  destruct C2_addSaveProps_existing_style_wins as [H _].
  destruct (H Lodash.kebabCase "__experimentalColor" "__experimentalLineHeight"
              st 0 0 attributes eq_refl eq_refl)
    as (st' & E & Hstyle & _).
  - vm_compute. repeat constructor. intros [].
  - exists st'. split; [exact E|]. rewrite Hstyle. reflexivity.
Defined.

(** C10.  [addSaveProps] returns the prop bag it was given.  For a block
    type without style support the store is left as it was.  With style
    support only the [style] of that bag is assigned: it holds an object
    afterwards (the empty one when nothing is computed and nothing was
    there), every other property of the bag keeps its value, and the other
    bags, the descriptors, [window] and the allocation counter are
    untouched. *)
Theorem C10_addSaveProps_only_touches_style :
  forall kebabCase CK LK st props blockType attributes,
    (hasStyleSupport CK LK (types st blockType) = false ->
     addSaveProps kebabCase CK LK st props blockType attributes = Normal (st, props))
    /\ (hasStyleSupport CK LK (types st blockType) = true ->
        nullish attributes = false ->
        exists st' style,
          addSaveProps kebabCase CK LK st props blockType attributes = Normal (st', props)
          /\ obj_get (bags st' props) "style" = Some (VObj style)
          /\ (forall k, k <> "style" ->
                        obj_get (bags st' props) k = obj_get (bags st props) k)
          /\ (forall l, l <> props -> bags st' l = bags st l)
          /\ types st' = types st
          /\ window st' = window st
          /\ next_bag st' = next_bag st)
    /\ (hasStyleSupport CK LK (types st blockType) = true ->
        prop attributes "style" = VUndefined ->
        nullish attributes = false ->
        obj_get (bags st props) "style" = None ->
        exists st',
          addSaveProps kebabCase CK LK st props blockType attributes = Normal (st', props)
          /\ obj_get (bags st' props) "style" = Some (VObj [])).
Proof.
  intros kebabCase CK LK st props blockType attributes. split; [|split].
  - apply addSaveProps_unsupported.
  - intros Hs Ha. eexists. eexists.
    assert (E := addSaveProps_supported kebabCase CK LK st props blockType attributes Hs Ha).
    split; [exact E|]. exact (save_style _ _ _ _ _ _ _ _ E Hs Ha).
  - intros Hs Hstyle Ha Hnone. eexists.
    assert (E := addSaveProps_supported kebabCase CK LK st props blockType attributes Hs Ha).
    split; [exact E|].
    destruct (save_style _ _ _ _ _ _ _ _ E Hs Ha) as [-> _]. do 2 f_equal.
    rewrite Hstyle. unfold prop at 1. cbn [own_entries]. rewrite Hnone.
    unfold computed_styles. now destruct (truthy _).
Qed.

Lemma C10_witness :
  let st :=
    mkStore (VObj [])
      (fun l => if Nat.eqb l 0 then [("className", VStr "wp-block")] else [("id", VNum 7)])
      2
      (fun _ => mkBlockType (String.eqb "__experimentalColor") [] None) in
  hasStyleSupport "__experimentalColor" "__experimentalLineHeight" (types st 0) = true
  /\ exists st',
       addSaveProps Lodash.kebabCase "__experimentalColor" "__experimentalLineHeight"
         st 0 0 (VObj [])
       = Normal (st', 0)
       /\ obj_get (bags st' 0) "style" = Some (VObj [])
       /\ obj_get (bags st' 0) "className" = Some (VStr "wp-block")
       /\ bags st' 1 = [("id", VNum 7)].
Proof.
  intros st. split; [reflexivity|].
  destruct (C10_addSaveProps_only_touches_style Lodash.kebabCase
              "__experimentalColor" "__experimentalLineHeight" st 0 0 (VObj []))
    as (_ & Hframe & Hempty).
  destruct (Hframe eq_refl eq_refl) as (st' & style & E & _ & Hkeep & Hother & _).
  destruct (Hempty eq_refl eq_refl eq_refl eq_refl) as (st'' & E' & Hstyle).
  rewrite E in E'. injection E' as <-.
  exists st'. split; [exact E|]. split; [exact Hstyle|]. split.
  - rewrite Hkeep; [reflexivity | discriminate].
  - rewrite Hother; [reflexivity | discriminate].
Defined.

(** C6.  The flag is read at every call.  Two calls of [addSaveProps] on
    prop bags with the same contents, for the same block type and
    attributes, the first while the flag is truthy and the second after it
    has become falsy, give the first bag the flattened variables and the
    second the inline styles (each overlaid with the style the bag had);
    the same holds with the flag going from falsy to truthy. *)
Theorem C6_flag_read_at_every_call :
  forall kebabCase CK LK st p1 p2 blockType attributes window_on window_off,
    hasStyleSupport CK LK (types st blockType) = true ->
    nullish attributes = false ->
    p1 <> p2 ->
    bags st p1 = bags st p2 ->
    truthy (hasGlobalStylesSupport (set_window st window_on)) = true ->
    truthy (hasGlobalStylesSupport (set_window st window_off)) = false ->
    let style := prop attributes "style" in
    let existing := prop (VObj (bags st p1)) "style" in
    (exists st1 st2,
        addSaveProps kebabCase CK LK (set_window st window_on) p1 blockType attributes
        = Normal (st1, p1)
        /\ addSaveProps kebabCase CK LK (set_window st1 window_off) p2 blockType attributes
           = Normal (st2, p2)
        /\ obj_get (bags st2 p1) "style"
           = Some (VObj (spread (VObj (getCSSVariables kebabCase style)) existing))
        /\ obj_get (bags st2 p2) "style"
           = Some (VObj (spread (VObj (getInlineStyles style)) existing)))
    /\ (exists st1 st2,
           addSaveProps kebabCase CK LK (set_window st window_off) p1 blockType attributes
           = Normal (st1, p1)
           /\ addSaveProps kebabCase CK LK (set_window st1 window_on) p2 blockType attributes
              = Normal (st2, p2)
           /\ obj_get (bags st2 p1) "style"
              = Some (VObj (spread (VObj (getInlineStyles style)) existing))
           /\ obj_get (bags st2 p2) "style"
              = Some (VObj (spread (VObj (getCSSVariables kebabCase style)) existing))).
Proof.
  intros kebabCase CK LK st p1 p2 blockType attributes window_on window_off
    Hs Ha Hp Hbags Hon Hoff style existing.
  assert (Hflag : forall s w, hasGlobalStylesSupport (set_window s w)
                              = hasGlobalStylesSupport (set_window st w))
    by reflexivity.
  assert (twice : forall w1 w2,
             exists st1 st2,
               addSaveProps kebabCase CK LK (set_window st w1) p1 blockType attributes
               = Normal (st1, p1)
               /\ addSaveProps kebabCase CK LK (set_window st1 w2) p2 blockType attributes
                  = Normal (st2, p2)
               /\ obj_get (bags st2 p1) "style"
                  = Some (VObj (spread
                                  (VObj (computed_styles kebabCase (set_window st w1) style))
                                  existing))
               /\ obj_get (bags st2 p2) "style"
                  = Some (VObj (spread
                                  (VObj (computed_styles kebabCase (set_window st w2) style))
                                  existing))).
  { intros w1 w2.
    assert (E1 := addSaveProps_supported kebabCase CK LK (set_window st w1) p1 blockType
                    attributes Hs Ha).
    match type of E1 with _ = Normal (?s, _) => remember s as st1 eqn:Hst1 end.
    destruct (save_style _ _ _ _ _ _ _ _ E1 Hs Ha) as (Hstyle1 & _ & Hother1 & Ht1 & _).
    assert (Hs1 : hasStyleSupport CK LK (types (set_window st1 w2) blockType) = true).
    { cbn [set_window types]. rewrite Ht1. exact Hs. }
    assert (E2 := addSaveProps_supported kebabCase CK LK (set_window st1 w2) p2 blockType
                    attributes Hs1 Ha).
    match type of E2 with _ = Normal (?s, _) => remember s as st2 eqn:Hst2 end.
    destruct (save_style _ _ _ _ _ _ _ _ E2 Hs1 Ha) as (Hstyle2 & _ & Hother2 & _).
    exists st1, st2. split; [exact E1|]. split; [exact E2|]. split.
    - rewrite (Hother2 p1 Hp). cbn [set_window bags]. exact Hstyle1.
    - rewrite Hstyle2. cbn [set_window bags].
      rewrite (Hother1 p2 (not_eq_sym Hp)). cbn [set_window bags].
      rewrite <- Hbags. reflexivity. }
  split.
  - destruct (twice window_on window_off) as (st1 & st2 & E1 & E2 & H1 & H2).
    exists st1, st2. unfold computed_styles in H1, H2. rewrite Hon in H1. rewrite Hoff in H2.
    now repeat split.
  - destruct (twice window_off window_on) as (st1 & st2 & E1 & E2 & H1 & H2).
    exists st1, st2. unfold computed_styles in H1, H2. rewrite Hoff in H1. rewrite Hon in H2.
    now repeat split.
Qed.

Lemma C6_witness :
  let st :=
    mkStore VUndefined (fun _ => []) 2
      (fun _ => mkBlockType (String.eqb "__experimentalLineHeight") [] None) in
  let attributes :=
    VObj [("style", VObj [("typography", VObj [("lineHeight", VStr "2")])])] in
  let window_on := VObj [("__unstableSupportsGlobalStyles", VBool true)] in
  let window_off := VObj [] in
  exists st1 st2,
    addSaveProps Lodash.kebabCase "__experimentalColor" "__experimentalLineHeight"
      (set_window st window_on) 0 0 attributes
    = Normal (st1, 0)
    /\ addSaveProps Lodash.kebabCase "__experimentalColor" "__experimentalLineHeight"
         (set_window st1 window_off) 1 0 attributes
       = Normal (st2, 1)
    /\ obj_get (bags st2 0) "style"
       = Some (VObj [("--wp--typography--line-height", VStr "2")])
    /\ obj_get (bags st2 1) "style" = Some (VObj [("lineHeight", VStr "2")]).
Proof.
  intros st attributes window_on window_off.
  destruct (C6_flag_read_at_every_call Lodash.kebabCase
              "__experimentalColor" "__experimentalLineHeight"
              st 0 1 0 attributes window_on window_off
              eq_refl eq_refl (n_Sn 0) eq_refl eq_refl eq_refl)
    as [(st1 & st2 & E1 & E2 & H1 & H2) _].
  exists st1, st2. split; [exact E1|]. split; [exact E2|].
  split; [rewrite H1 | rewrite H2]; vm_compute; reflexivity.
Defined.

(** ** [addAttribute] *)

Section Registration.

Variables COLOR_SUPPORT_KEY LINE_HEIGHT_SUPPRT_KEY : string.

Local Abbreviation supported :=
  (hasStyleSupport COLOR_SUPPORT_KEY LINE_HEIGHT_SUPPRT_KEY).
Local Abbreviation register :=
  (addAttribute COLOR_SUPPORT_KEY LINE_HEIGHT_SUPPRT_KEY).

Lemma addAttribute_unsupported st settings :
  supported (types st settings) = false -> register st settings = (st, settings).
Proof. unfold addAttribute. now intros ->. Qed.

Lemma addAttribute_declared st settings :
  truthy (prop (VObj (attributes (types st settings))) "style") = true ->
  register st settings = (st, settings).
Proof. unfold addAttribute. intros ->. now destruct (negb _). Qed.

Lemma addAttribute_added st settings :
  supported (types st settings) = true ->
  truthy (prop (VObj (attributes (types st settings))) "style") = false ->
  register st settings
  = (set_type st settings
       (mkBlockType (supports (types st settings))
          (obj_set (attributes (types st settings)) "style"
             (VObj [("type", VStr "object")]))
          (getEditWrapperProps (types st settings))),
     settings).
Proof. unfold addAttribute. now intros -> ->. Qed.

Lemma addAttribute_twice st settings :
  register (fst (register st settings)) (snd (register st settings))
  = register st settings.
Proof.
  destruct (supported (types st settings)) eqn:Hs.
  - destruct (truthy (prop (VObj (attributes (types st settings))) "style")) eqn:Ht.
    + rewrite (addAttribute_declared _ _ Ht). cbn [fst snd].
      now apply addAttribute_declared.
    + rewrite (addAttribute_added _ _ Hs Ht). cbn [fst snd].
      apply addAttribute_declared. cbn [set_type types]. rewrite update_same.
      cbn [attributes]. unfold prop. cbn [own_entries].
      now rewrite obj_get_set, String.eqb_refl.
  - rewrite (addAttribute_unsupported _ _ Hs). cbn [fst snd].
    now apply addAttribute_unsupported.
Qed.

End Registration.

(** C5.  [addAttribute] is idempotent: a second application returns the
    store and the descriptor of the first.  It returns the descriptor it was
    given.  Without style support, or when the descriptor's [style]
    declaration is there (any object, any truthy value), nothing changes.
    Otherwise [style] is declared with type [object], once, and nothing else
    changes. *)
Theorem C5_addAttribute_idempotent :
  forall CK LK st settings,
    let once := addAttribute CK LK st settings in
    let declarations := attributes (types st settings) in
    addAttribute CK LK (fst once) (snd once) = once
    /\ snd once = settings
    /\ (hasStyleSupport CK LK (types st settings) = false -> once = (st, settings))
    /\ (forall declaration,
           obj_get declarations "style" = Some (VObj declaration) ->
           once = (st, settings))
    /\ (truthy (prop (VObj declarations) "style") = true -> once = (st, settings))
    /\ (hasStyleSupport CK LK (types st settings) = true ->
        truthy (prop (VObj declarations) "style") = false ->
        let declarations' := attributes (types (fst once) settings) in
        declarations' = assign declarations [("style", VObj [("type", VStr "object")])]
        /\ obj_get declarations' "style" = Some (VObj [("type", VStr "object")])
        /\ (forall k, k <> "style" -> obj_get declarations' k = obj_get declarations k)
        /\ (NoDup (keys declarations) -> NoDup (keys declarations'))
        /\ supports (types (fst once) settings) = supports (types st settings)
        /\ getEditWrapperProps (types (fst once) settings)
           = getEditWrapperProps (types st settings)
        /\ (forall l, l <> settings -> types (fst once) l = types st l)
        /\ bags (fst once) = bags st
        /\ window (fst once) = window st).
Proof.
  intros CK LK st settings once declarations. subst once declarations.
  split; [apply addAttribute_twice|].
  split; [unfold addAttribute; now destruct (negb _)|].
  split; [apply addAttribute_unsupported|].
  split; [|split; [apply addAttribute_declared|]].
  - intros declaration H. apply addAttribute_declared.
    unfold prop. cbn [own_entries]. now rewrite H.
  - intros Hs Ht. rewrite (addAttribute_added _ _ _ _ Hs Ht).
    cbn [fst set_type types bags window]. rewrite update_same.
    cbn [attributes supports getEditWrapperProps].
    repeat split.
    + now rewrite obj_get_set, String.eqb_refl.
    + intros k Hk. rewrite obj_get_set. apply not_eq_sym, String.eqb_neq in Hk.
      now rewrite Hk.
    + apply NoDup_set.
    + intros l Hl. now apply update_other.
Qed.

Lemma C5_witness :
  let st :=
    mkStore (VObj []) (fun _ => []) 0
      (fun _ => mkBlockType (String.eqb "__experimentalColor")
                  [("content", VObj [("type", VStr "string")])] None) in
  let once := addAttribute "__experimentalColor" "__experimentalLineHeight" st 0 in
  (hasStyleSupport "__experimentalColor" "__experimentalLineHeight" (types st 0) = true
   /\ truthy (prop (VObj (attributes (types st 0))) "style") = false)
  /\ attributes (types (fst once) 0)
     = [("content", VObj [("type", VStr "string")]);
        ("style", VObj [("type", VStr "object")])]
  /\ addAttribute "__experimentalColor" "__experimentalLineHeight" (fst once) (snd once)
     = once.
Proof.
  intros st once. split; [split; reflexivity|].
  destruct (C5_addAttribute_idempotent "__experimentalColor" "__experimentalLineHeight" st 0)
    as (Htwice & _ & _ & _ & _ & Hadded).
  destruct (Hadded eq_refl eq_refl) as (Hdecl & _).
  split; [exact Hdecl | exact Htwice].
Defined.

(** ** Missing inputs *)

(** C9.  Missing optional inputs are replaced by defaults.  An [undefined]
    style argument is the empty configuration for [getCSSVariables] and
    [getInlineStyles].  [addSaveProps] returns for every attribute object,
    and when the attributes carry no [style] it assigns the bag's existing
    style, copied, and nothing else.  The wrapper that [addEditProps]
    installs on a descriptor without a callback returns, having started from
    a fresh empty bag; every callback returns when the attributes are an
    object. *)
Theorem C9_missing_inputs_are_defaulted :
  forall kebabCase CK LK,
    (getCSSVariables kebabCase VUndefined = getCSSVariables kebabCase (VObj [])
     /\ getCSSVariables kebabCase VUndefined = [])
    /\ (getInlineStyles VUndefined = getInlineStyles (VObj [])
        /\ getInlineStyles VUndefined = [])
    /\ (forall st props blockType attributes,
           nullish attributes = false ->
           exists st',
             addSaveProps kebabCase CK LK st props blockType attributes
             = Normal (st', props))
    /\ (forall st props blockType attributes,
           hasStyleSupport CK LK (types st blockType) = true ->
           nullish attributes = false ->
           prop attributes "style" = VUndefined ->
           exists st',
             addSaveProps kebabCase CK LK st props blockType attributes
             = Normal (st', props)
             /\ obj_get (bags st' props) "style"
                = Some (VObj (assign [] (own_entries (prop (VObj (bags st props)) "style")))))
    /\ (forall st settings attributes,
           hasStyleSupport CK LK (types st settings) = true ->
           getEditWrapperProps (types st settings) = None ->
           nullish attributes = false ->
           let st1 := fst (addEditProps CK LK st settings) in
           getEditWrapperProps (types st1 settings) = Some (Wrapper None settings)
           /\ exists st',
               call kebabCase CK LK (Wrapper None settings) st1 attributes
               = Normal (st', next_bag st1)
               /\ bags st' (next_bag st1)
                  = [("style",
                      VObj (assign []
                              (computed_styles kebabCase st1 (prop attributes "style"))))])
    /\ (forall cb st attributes,
           nullish attributes = false ->
           exists st' props, call kebabCase CK LK cb st attributes = Normal (st', props)).
Proof.
  intros kebabCase CK LK.
  split; [split; reflexivity|]. split; [split; reflexivity|].
  split; [|split; [|split; [|intros; now apply invoke_total]]].
  - intros st props blockType attributes Ha.
    destruct (hasStyleSupport CK LK (types st blockType)) eqn:Hs.
    + eexists. now apply addSaveProps_supported.
    + eexists. now apply addSaveProps_unsupported.
  - intros st props blockType attributes Hs Ha Hstyle.
    assert (E := addSaveProps_supported kebabCase CK LK st props blockType attributes Hs Ha).
    eexists. split; [exact E|].
    destruct (save_style _ _ _ _ _ _ _ _ E Hs Ha) as [-> _]. rewrite Hstyle.
    unfold computed_styles. now destruct (truthy _).
  - intros st settings attributes Hs Hnone Ha st1. subst st1.
    unfold addEditProps. rewrite Hs, Hnone. cbn [negb fst set_type types next_bag].
    rewrite update_same. cbn [getEditWrapperProps]. split; [reflexivity|].
    cbn [call alloc].
    match goal with
    | |- exists st', addSaveProps _ _ _ ?s ?p _ _ = _ /\ _ =>
        assert (Hs' : hasStyleSupport CK LK (types s settings) = true)
    end.
    { cbn [set_type types]. rewrite update_same. exact Hs. }
    eexists. split; [now apply addSaveProps_supported|].
    cbn [set_bag bags]. rewrite !update_same. reflexivity.
Qed.

Lemma C9_witness :
  let st :=
    mkStore (VObj []) (fun _ => []) 0
      (fun _ => mkBlockType (String.eqb "__experimentalColor") [] None) in
  let attributes := VObj [("align", VStr "wide")] in
  let st1 := fst (addEditProps "__experimentalColor" "__experimentalLineHeight" st 0) in
  (hasStyleSupport "__experimentalColor" "__experimentalLineHeight" (types st 0) = true
   /\ prop attributes "style" = VUndefined)
  /\ exists st',
       call Lodash.kebabCase "__experimentalColor" "__experimentalLineHeight"
         (Wrapper None 0) st1 attributes
       = Normal (st', 0)
       /\ bags st' 0 = [("style", VObj [])].
Proof.
  intros st attributes st1. split; [split; reflexivity|].
  destruct (C9_missing_inputs_are_defaulted Lodash.kebabCase
              "__experimentalColor" "__experimentalLineHeight")
    as (_ & _ & _ & _ & Hwrap & _).
  destruct (Hwrap st 0 attributes eq_refl eq_refl eq_refl) as (_ & st' & E & Hbag).
  exists st'. split; [exact E | exact Hbag].
Defined.

(** ** [addEditProps] *)

Lemma computed_styles_window kebabCase st st' style :
  window st' = window st ->
  computed_styles kebabCase st' style = computed_styles kebabCase st style.
Proof. unfold computed_styles, hasGlobalStylesSupport. now intros ->. Qed.

Lemma or_else_twice {A : Type} (a b : option A) : or_else (or_else a b) b = or_else a b.
Proof. now destruct a, b. Qed.

(** Two rounds of [addSaveProps] on the same bag: the second round changes
    no entry of the style the first one left. *)
Lemma save_twice kebabCase CK LK st0 p settings attributes :
  hasStyleSupport CK LK (types st0 settings) = true ->
  nullish attributes = false ->
  let computed := computed_styles kebabCase st0 (prop attributes "style") in
  let existing := prop (VObj (bags st0 p)) "style" in
  exists st1 st2,
    addSaveProps kebabCase CK LK st0 p settings attributes = Normal (st1, p)
    /\ addSaveProps kebabCase CK LK st1 p settings attributes = Normal (st2, p)
    /\ obj_get (bags st2 p) "style"
       = Some (VObj (spread (VObj computed) (VObj (spread (VObj computed) existing))))
    /\ (forall k, k <> "style" -> obj_get (bags st2 p) k = obj_get (bags st0 p) k)
    /\ (NoDup (keys (own_entries existing)) ->
        forall k,
          obj_get (spread (VObj computed) (VObj (spread (VObj computed) existing))) k
          = or_else (obj_get (own_entries existing) k) (obj_get computed k)).
Proof.
  intros Hs Ha computed existing.
  assert (E1 := addSaveProps_supported kebabCase CK LK st0 p settings attributes Hs Ha).
  match type of E1 with _ = Normal (?s, _) => remember s as st1 eqn:Hst1 end.
  destruct (save_style _ _ _ _ _ _ _ _ E1 Hs Ha) as (Hstyle1 & Hkeep1 & _ & Ht1 & Hw1 & _).
  assert (Hs1 : hasStyleSupport CK LK (types st1 settings) = true) by now rewrite Ht1.
  assert (E2 := addSaveProps_supported kebabCase CK LK st1 p settings attributes Hs1 Ha).
  match type of E2 with _ = Normal (?s, _) => remember s as st2 eqn:Hst2 end.
  destruct (save_style _ _ _ _ _ _ _ _ E2 Hs1 Ha) as (Hstyle2 & Hkeep2 & _).
  exists st1, st2. split; [exact E1|]. split; [exact E2|]. split; [|split].
  - rewrite Hstyle2, (computed_styles_window _ _ _ _ Hw1).
    unfold prop at 2. cbn [own_entries]. now rewrite Hstyle1.
  - intros k Hk. now rewrite (Hkeep2 k Hk), (Hkeep1 k Hk).
  - intros Hnd k.
    rewrite (obj_get_merged computed (VObj (spread (VObj computed) existing)) k
               (NoDup_computed _ _ _) (NoDup_spread _ _)).
    cbn [own_entries].
    rewrite (obj_get_merged computed existing k (NoDup_computed _ _ _) Hnd).
    apply or_else_twice.
Qed.

Lemma addEditProps_supported CK LK st settings :
  hasStyleSupport CK LK (types st settings) = true ->
  addEditProps CK LK st settings
  = (set_type st settings
       (mkBlockType (supports (types st settings)) (attributes (types st settings))
          (Some (Wrapper (getEditWrapperProps (types st settings)) settings))),
     settings).
Proof. unfold addEditProps. now intros ->. Qed.

(** C3.  For a descriptor with style support, [addEditProps] returns it
    with [getEditWrapperProps] replaced by a wrapper that remembers the
    prior callback; nothing else of the descriptor or the store changes.
    Called with attributes, the wrapper obtains the base prop bag from the
    prior callback, or a fresh empty bag when there was none, and returns
    what [addSaveProps] returns for that bag, the same descriptor and the
    attributes.  After two applications the callback is a wrapper around the
    first wrapper, and its result is the bag of the original callback: every
    property other than [style] is as the original callback left it, and
    [style] is the result of two rounds of injection, which keeps every
    entry the original style had and has the computed value under every
    other key. *)
Theorem C3_addEditProps_wraps_and_chains :
  forall kebabCase CK LK,
    (forall st settings,
        hasStyleSupport CK LK (types st settings) = true ->
        let existing := getEditWrapperProps (types st settings) in
        let once := addEditProps CK LK st settings in
        let twice := addEditProps CK LK (fst once) settings in
        snd once = settings
        /\ getEditWrapperProps (types (fst once) settings)
           = Some (Wrapper existing settings)
        /\ supports (types (fst once) settings) = supports (types st settings)
        /\ attributes (types (fst once) settings) = attributes (types st settings)
        /\ (forall l, l <> settings -> types (fst once) l = types st l)
        /\ bags (fst once) = bags st
        /\ window (fst once) = window st
        /\ getEditWrapperProps (types (fst twice) settings)
           = Some (Wrapper (Some (Wrapper existing settings)) settings))
    /\ (forall existing settings st attributes,
           call kebabCase CK LK (Wrapper existing settings) st attributes
           = match
               match existing with
               | Some prior => call kebabCase CK LK prior (fst (alloc st [])) attributes
               | None => Normal (alloc st [])
               end
             with
             | Normal (st', props) =>
                 addSaveProps kebabCase CK LK st' props settings attributes
             | TypeError => TypeError
             end)
    /\ (forall existing settings st attributes st0 base,
           hasStyleSupport CK LK (types st settings) = true ->
           nullish attributes = false ->
           match existing with
           | Some prior =>
               call kebabCase CK LK prior (fst (alloc (fst (alloc st [])) [])) attributes
           | None => Normal (alloc (fst (alloc st [])) [])
           end = Normal (st0, base) ->
           let computed := computed_styles kebabCase st (prop attributes "style") in
           let original := prop (VObj (bags st0 base)) "style" in
           exists st2,
             call kebabCase CK LK (Wrapper (Some (Wrapper existing settings)) settings)
               st attributes
             = Normal (st2, base)
             /\ (forall k, k <> "style" ->
                           obj_get (bags st2 base) k = obj_get (bags st0 base) k)
             /\ obj_get (bags st2 base) "style"
                = Some (VObj (spread (VObj computed)
                                (VObj (spread (VObj computed) original))))
             /\ (NoDup (keys (own_entries original)) ->
                 forall k,
                   obj_get (spread (VObj computed)
                              (VObj (spread (VObj computed) original))) k
                   = or_else (obj_get (own_entries original) k) (obj_get computed k))).
Proof.
  intros kebabCase CK LK. split; [|split].
  - intros st settings Hs existing once twice. subst existing once twice.
    rewrite !(addEditProps_supported CK LK st settings Hs). cbn [fst snd].
    rewrite addEditProps_supported;
      [|cbn [set_type types]; rewrite update_same; exact Hs].
    cbn [fst set_type types bags window]. rewrite !update_same.
    cbn [supports attributes getEditWrapperProps].
    repeat split. intros l Hl. now apply update_other.
  - intros existing settings st attributes. reflexivity.
  - intros existing settings st attributes st0 base Hs Ha Hbase computed original.
    assert (Hframe : types st0 = types st /\ window st0 = window st).
    { destruct existing as [prior|].
      - destruct (invoke_frame _ _ _ _ _ _ _ _ Hbase) as [Ht Hw]. now split.
      - injection Hbase as <- _. now split. }
    destruct Hframe as [Ht Hw].
    assert (Hs0 : hasStyleSupport CK LK (types st0 settings) = true) by now rewrite Ht.
    destruct (save_twice kebabCase CK LK st0 base settings attributes Hs0 Ha)
      as (st1 & st2 & E1 & E2 & Hstyle & Hkeep & Hmerged).
    rewrite (computed_styles_window _ _ _ _ Hw) in Hstyle, Hmerged.
    exists st2. split; [|split; [exact Hkeep | split; [exact Hstyle | exact Hmerged]]].
    cbn [call]. cbn [call] in Hbase.
    destruct (alloc st []) as [stA pA] eqn:EA. cbn [fst] in Hbase.
    destruct (alloc stA []) as [stB pB] eqn:EB. cbn [fst] in Hbase.
    destruct existing as [prior|].
    + rewrite Hbase, E1. exact E2.
    + injection Hbase as <- <-. rewrite E1. exact E2.
Qed.

Lemma C3_witness :
  let original :=
    Host (fun attributes =>
            [("data-align", prop attributes "align");
             ("style", VObj [("color", VStr "red")])]) in
  let descriptor :=
    mkBlockType (String.eqb "__experimentalColor") [] (Some original) in
  let st := mkStore (VObj []) (fun _ => []) 0 (fun _ => descriptor) in
  let once := addEditProps "__experimentalColor" "__experimentalLineHeight" st 0 in
  let twice := addEditProps "__experimentalColor" "__experimentalLineHeight" (fst once) 0 in
  let attributes :=
    VObj [("align", VStr "wide");
          ("style", VObj [("color", VObj [("text", VStr "blue")]);
                          ("typography", VObj [("lineHeight", VStr "2")])])] in
  hasStyleSupport "__experimentalColor" "__experimentalLineHeight" (types st 0) = true
  /\ exists cb st2,
       getEditWrapperProps (types (fst twice) 0) = Some cb
       /\ call Lodash.kebabCase "__experimentalColor" "__experimentalLineHeight"
            cb (fst twice) attributes
          = Normal (st2, 2)
       /\ obj_get (bags st2 2) "data-align" = Some (VStr "wide")
       /\ obj_get (bags st2 2) "style"
          = Some (VObj [("lineHeight", VStr "2"); ("color", VStr "red")]).
Proof.
  intros original descriptor st once twice attributes. split; [reflexivity|].
  destruct (C3_addEditProps_wraps_and_chains Lodash.kebabCase
              "__experimentalColor" "__experimentalLineHeight")
    as (Hinstall & _ & Hchain).
  destruct (Hinstall st 0 eq_refl) as (_ & _ & _ & _ & _ & _ & _ & Htwice).
  destruct (Hchain (Some original) 0 (fst twice) attributes
              (fst (alloc (fst (alloc (fst (alloc (fst twice) [])) []))
                      [("data-align", VStr "wide");
                       ("style", VObj [("color", VStr "red")])]))
              2 eq_refl eq_refl eq_refl)
    as (st2 & E & Hkeep & Hstyle & _).
  exists (Wrapper (Some (Wrapper (Some original) 0)) 0), st2.
  split; [exact Htwice|]. split; [exact E|]. split.
  - rewrite Hkeep; [reflexivity | discriminate].
  - rewrite Hstyle. vm_compute. reflexivity.
Defined.

(** * Further properties of the hook *)

(** ** The shape of the flattened variables *)

Section Shape.

Variable kebabCase : string -> string.

Lemma emitted_scalars config :
  Forall (fun kv => isObject (snd kv) = false) (emitted kebabCase config).
Proof.
  assert (leaf : forall es,
             Forall (fun kv => isObject (snd kv) = false) es ->
             Forall (fun kv => isObject (snd kv) = false)
               (flat_map (declare kebabCase (fun _ => [])) es)).
  { induction 1 as [|[key v] es Hv _ IH]; cbn [flat_map]; [constructor|].
    apply Forall_app. split; [|exact IH].
    unfold declare. cbn [snd] in Hv. rewrite Hv. now repeat constructor. }
  induction config as [| | | | |props IH] using value_ind';
    try (cbn [emitted]; apply leaf, entries_leaves; reflexivity).
  cbn [emitted]. induction IH as [|[key v] props Hv _ IHprops]; cbn [flat_map];
    [constructor|].
  apply Forall_app. split; [|exact IHprops].
  unfold declare. destruct (isObject v) eqn:E.
  - cbn [snd] in Hv. rewrite Forall_map. exact Hv.
  - now repeat constructor.
Qed.

Lemma emitted_app a b :
  emitted kebabCase (VObj (a ++ b))
  = emitted kebabCase (VObj a) ++ emitted kebabCase (VObj b).
Proof. cbn [emitted]. apply flat_map_app. Qed.

(** An entry of the result is a declaration of the configuration, under the
    prefix. *)
Lemma getCSSVariables_entry styles name v :
  In (name, v) (getCSSVariables kebabCase styles) ->
  In (name, v)
    (map (rekey (prefix ++ token)) (emitted kebabCase (default_styles styles))).
Proof.
  intros Hin.
  apply (In_obj_get _ _ _ (NoDup_getCSSVariables kebabCase styles)) in Hin.
  rewrite getCSSVariables_emitted in Hin. unfold last_write in Hin.
  apply obj_get_In in Hin. now apply in_rev.
Qed.

Lemma getCSSVariables_keys_declared styles :
  incl (keys (getCSSVariables kebabCase styles))
    (keys (map (rekey (prefix ++ token)) (emitted kebabCase (default_styles styles)))).
Proof.
  intros name Hin. apply in_map_iff in Hin. destruct Hin as [[name' v] [<- Hin]].
  apply (in_map fst _ _ (getCSSVariables_entry _ _ _ Hin)).
Qed.

End Shape.

(** X1.  Every entry of the result of [getCSSVariables] is a variable whose
    name starts with [--wp--] and whose value is not an object, whatever the
    configuration and however deep it nests. *)
Theorem X1_flattened_entries_are_prefixed_scalars :
  forall (kebabCase : string -> string) styles,
    Forall
      (fun entry =>
         (exists rest, fst entry = ("--wp--" ++ rest)%string)
         /\ isObject (snd entry) = false)
      (getCSSVariables kebabCase styles).
Proof.
  intros kebabCase styles. apply Forall_forall. intros [name v] Hin.
  apply getCSSVariables_entry in Hin. apply in_map_iff in Hin.
  destruct Hin as [[key v'] [E Hin]]. injection E as <- <-. cbn [fst snd]. split.
  - now exists key.
  - pose proof (emitted_scalars kebabCase (default_styles styles)) as H.
    rewrite Forall_forall in H. exact (H _ Hin).
Qed.

(** X2.  [getCSSVariables] never yields more variables than the
    configuration has scalars; a configuration of nested mappings without a
    scalar yields none. *)
Theorem X2_no_more_variables_than_scalars :
  forall (kebabCase : string -> string) props,
    length (getCSSVariables kebabCase (VObj props)) <= leaves (VObj props).
Proof.
  intros kebabCase props.
  rewrite <- (length_emitted kebabCase (VObj props) eq_refl).
  rewrite <- (length_map (rekey (prefix ++ token)) (emitted kebabCase (VObj props))).
  rewrite <- (length_map fst (getCSSVariables kebabCase (VObj props))).
  rewrite <- (length_map fst (map _ _)).
  apply NoDup_incl_length.
  - apply NoDup_getCSSVariables.
  - apply (getCSSVariables_keys_declared kebabCase (VObj props)).
Qed.

(** X3.  Flattening distributes over the concatenation of two mappings:
    the variables of the mapping whose entries are those of [a] followed by
    those of [b] are the variables of [a] overlaid with those of [b], so a
    later entry overrides an earlier one that flattens to the same name and
    nothing else is lost. *)
Theorem X3_flattening_concatenation_is_overlay :
  forall (kebabCase : string -> string) a b,
    (forall name,
        obj_get (getCSSVariables kebabCase (VObj (a ++ b))) name
        = or_else (obj_get (getCSSVariables kebabCase (VObj b)) name)
            (obj_get (getCSSVariables kebabCase (VObj a)) name))
    /\ Permutation (getCSSVariables kebabCase (VObj (a ++ b)))
         (spread (VObj (getCSSVariables kebabCase (VObj a)))
            (VObj (getCSSVariables kebabCase (VObj b)))).
Proof.
  intros kebabCase a b.
  assert (H : forall name,
             obj_get (getCSSVariables kebabCase (VObj (a ++ b))) name
             = or_else (obj_get (getCSSVariables kebabCase (VObj b)) name)
                 (obj_get (getCSSVariables kebabCase (VObj a)) name)).
  { intros name. rewrite !getCSSVariables_emitted. cbn [default_styles].
    now rewrite emitted_app, map_app, last_write_app. }
  split; [exact H|].
  apply same_lookup_same_entries;
    [apply NoDup_getCSSVariables | apply NoDup_spread |].
  intros name. rewrite H, obj_get_spread. cbn [own_entries].
  now rewrite !(last_write_NoDup _ _ (NoDup_getCSSVariables _ _)).
Qed.

(** ** The order of the flattened variables *)

Lemma decimal_digits s : forall acc n,
  decimal s acc = Some n -> all decimal_digit s = true.
Proof.
  induction s as [|c s IH]; intros acc n; cbn [decimal all]; [reflexivity|].
  unfold decimal_digit at 1. destruct (digit_of c); [|discriminate].
  intros H. now rewrite (IH _ _ H).
Qed.

Lemma array_index_digits k n : array_index k = Some n -> all decimal_digit k = true.
Proof.
  unfold array_index. destruct k as [|c k]; [discriminate|].
  destruct (_ && _)%bool; [discriminate|].
  destruct (decimal (String c k) 0) as [m|] eqn:E; [|discriminate].
  intros _. exact (decimal_digits _ _ _ E).
Qed.

(** A name with the token in it is no array index. *)
Lemma array_index_token a b : array_index (a ++ token ++ b) = None.
Proof.
  destruct (array_index (a ++ token ++ b)) as [n|] eqn:E; [|reflexivity].
  apply array_index_digits in E. rewrite KebabFacts.all_app in E.
  apply andb_true_iff in E as [_ E]. discriminate.
Qed.

Lemma obj_set_fresh o k v :
  obj_get o k = None -> array_index k = None -> obj_set o k v = o ++ [(k, v)].
Proof. unfold obj_set, obj_create. now intros -> ->. Qed.

(** Assigning new properties that are no array indices appends them. *)
Lemma assign_fresh s : forall t,
  NoDup (keys t ++ keys s) ->
  Forall (fun kv => array_index (fst kv) = None) s ->
  assign t s = t ++ s.
Proof.
  induction s as [|[k v] s IH]; intros t Hnd Hplain.
  - now rewrite app_nil_r.
  - inversion Hplain as [|? ? Hk Hs]; subst. cbn [fst] in Hk.
    change (assign t ((k, v) :: s)) with (assign (obj_set t k v) s).
    assert (Hfresh : obj_get t k = None).
    { apply obj_get_None. intros Hin. apply NoDup_remove_2 in Hnd.
      apply Hnd. apply in_or_app. now left. }
    rewrite (obj_set_fresh _ _ _ Hfresh Hk), IH.
    + now rewrite <- app_assoc.
    + unfold keys. rewrite map_app. cbn [map fst]. rewrite <- app_assoc. exact Hnd.
    + exact Hs.
Qed.

Lemma mapKeys_fresh p (f : string -> string) o :
  (forall key, f key = (p ++ token ++ key)%string) ->
  NoDup (keys o) ->
  mapKeys o (fun _ key => f key) = map (rekey (p ++ token)) o.
Proof.
  intros Hf Hnd. rewrite mapKeys_assign.
  rewrite (map_ext _ (rekey (p ++ token)))
    by (intros kv; unfold rekey; now rewrite Hf, append_assoc).
  rewrite assign_fresh; [reflexivity | |].
  - cbn [keys map app]. fold (keys (map (rekey (p ++ token)) o)).
    rewrite keys_rekey. now apply NoDup_map_append.
  - apply Forall_forall. intros kv Hin. apply in_map_iff in Hin.
    destruct Hin as [[key v] [<- _]]. cbn [rekey fst].
    rewrite <- append_assoc. apply array_index_token.
Qed.

Section Order.

Variable kebabCase : string -> string.
Hypothesis kebab_segment : forall key, segment (kebabCase key) = true.

Lemma declare_plain emit key v :
  (isObject v = false -> array_index (kebabCase key) = None) ->
  Forall (fun kv => array_index (fst kv) = None) (declare kebabCase emit (key, v)).
Proof.
  intros H. unfold declare. destruct (isObject v).
  - apply Forall_forall. intros kv Hin. apply in_map_iff in Hin.
    destruct Hin as [[r x] [<- _]]. cbn [rekey fst].
    rewrite <- append_assoc. apply array_index_token.
  - repeat constructor. now apply H.
Qed.

Lemma forEach_in_order recur emit es : forall acc,
  Forall (fun kv => isObject (snd kv) = true -> recur (snd kv) = emit (snd kv)) es ->
  Forall (fun kv => isObject (snd kv) = false ->
                    array_index (kebabCase (fst kv)) = None) es ->
  NoDup (keys (acc ++ flat_map (declare kebabCase emit) es)) ->
  Forall (fun kv => array_index (fst kv) = None) acc ->
  fold_left (visit kebabCase recur) es acc
  = acc ++ flat_map (declare kebabCase emit) es.
Proof.
  induction es as [|[key v] es IH]; intros acc Hrec Hplain Hnd Hacc;
    cbn [fold_left flat_map] in *.
  - now rewrite app_nil_r.
  - inversion Hrec as [|? ? Hv Hrec']; subst.
    inversion Hplain as [|? ? Hk Hplain']; subst. cbn [fst snd] in Hv, Hk.
    rewrite app_assoc in Hnd |- *.
    assert (Hstep : visit kebabCase recur acc (key, v)
                    = acc ++ declare kebabCase emit (key, v)).
    { assert (Hnd' : NoDup (keys acc ++ keys (declare kebabCase emit (key, v)))).
      { unfold keys in Hnd. rewrite map_app in Hnd.
        apply NoDup_app_remove_r in Hnd. unfold keys. now rewrite <- map_app. }
      destruct (isObject v) eqn:Ev.
      - rewrite (visit_object _ _ _ _ _ Ev), (Hv eq_refl). unfold spread.
        cbn [own_entries]. unfold declare in *. rewrite Ev in *.
        rewrite (mapKeys_fresh (kebabCase key) _ _ (fun k => eq_refl)).
        + rewrite (assign_fresh acc []); [|apply (NoDup_app_remove_r _ _ Hnd')|exact Hacc].
          cbn [app]. apply assign_fresh; [exact Hnd'|].
          apply Forall_forall. intros kv Hin. apply in_map_iff in Hin.
          destruct Hin as [[r x] [<- _]]. cbn [rekey fst].
          rewrite <- append_assoc. apply array_index_token.
        + apply NoDup_app_remove_l in Hnd'. rewrite keys_rekey in Hnd'.
          exact (NoDup_map_inv _ _ Hnd').
      - rewrite (visit_scalar _ _ _ _ _ Ev). unfold declare in *. rewrite Ev in *.
        apply obj_set_fresh; [|now apply Hk].
        apply obj_get_None. intros Hin. cbn [keys map fst] in Hnd'.
        apply NoDup_remove_2 in Hnd'. apply Hnd'. now rewrite app_nil_r. }
    rewrite Hstep. apply IH; [exact Hrec' | exact Hplain' | exact Hnd |].
    apply Forall_app. split; [exact Hacc|].
    apply declare_plain. exact Hk.
Qed.

Lemma getNested_in_order config :
  isObject config = true ->
  distinct_keys kebabCase config = true ->
  plain_keys kebabCase config = true ->
  getNestedCSSVariables kebabCase config = emitted kebabCase config.
Proof.
  induction config as [| | | | |props IH] using value_ind'; try discriminate.
  intros _ Hd Hp.
  pose proof (NoDup_emitted kebabCase kebab_segment (VObj props) eq_refl Hd) as Hnd.
  cbn [distinct_keys plain_keys] in Hd, Hp.
  apply andb_true_iff in Hd as [_ Hd].
  rewrite forallb_forall in Hd, Hp. rewrite Forall_forall in IH.
  cbn [getNestedCSSVariables emitted] in *.
  apply (forEach_in_order _ _ props []); [| |exact Hnd|constructor].
  - apply Forall_forall. intros kv Hin Hobj.
    apply (IH kv Hin Hobj (Hd kv Hin)).
    specialize (Hp kv Hin). now rewrite Hobj in Hp.
  - apply Forall_forall. intros kv Hin Hobj. specialize (Hp kv Hin).
    rewrite Hobj in Hp. now destruct (array_index (kebabCase (fst kv))).
Qed.

End Order.

(** X4.  When the kebab-cased keys of every mapping are pairwise distinct
    and no scalar sits at a key that is kebab-cased to an array index (with
    [kebabCase] returning dash-joined words), the variables come in the
    order in which the traversal of the configuration meets the scalars. *)
Theorem X4_variables_in_traversal_order :
  forall kebabCase : string -> string,
    (forall key, segment (kebabCase key) = true) ->
    forall props,
      distinct_keys kebabCase (VObj props) = true ->
      plain_keys kebabCase (VObj props) = true ->
      getCSSVariables kebabCase (VObj props)
      = map (rekey "--wp--") (emitted kebabCase (VObj props)).
Proof.
  intros kebabCase Hseg props Hd Hp. unfold getCSSVariables. cbn [default_styles].
  rewrite (getNested_in_order kebabCase Hseg (VObj props) eq_refl Hd Hp).
  apply (mapKeys_fresh prefix _ _ (fun key => eq_refl)).
  now apply (NoDup_emitted kebabCase Hseg).
Qed.

Lemma X4_witness :
  let props :=
    [("typography", VObj [("lineHeight", VStr "2"); ("fontSize", VNum 12)]);
     ("zIndex", VNum 1);
     ("color", VObj [("text", VStr "#000")])] in
  (distinct_keys Lodash.kebabCase (VObj props) = true
   /\ plain_keys Lodash.kebabCase (VObj props) = true)
  /\ getCSSVariables Lodash.kebabCase (VObj props)
     = [("--wp--typography--line-height", VStr "2");
        ("--wp--typography--font-size", VNum 12);
        ("--wp--z-index", VNum 1);
        ("--wp--color--text", VStr "#000")].
Proof.
  intros props. split; [split; vm_compute; reflexivity|].
  rewrite (X4_variables_in_traversal_order Lodash.kebabCase
             KebabFacts.kebabCase_segment props eq_refl eq_refl).
  vm_compute. reflexivity.
Defined.

(** A scalar at a key that is kebab-cased to an array index moves to the
    front, as the properties of a JavaScript object do. *)
Example array_index_key_moves_to_front :
  getCSSVariables Lodash.kebabCase
    (VObj [("a", VObj [("b", VNum 1); ("-1", VNum 2)])])
  = [("--wp--a--1", VNum 2); ("--wp--a--b", VNum 1)].
Proof. vm_compute. reflexivity. Qed.

(** ** The two output modes agree *)

Lemma string_of_uint_digits d : all decimal_digit (NilEmpty.string_of_uint d) = true.
Proof. induction d; cbn [NilEmpty.string_of_uint all]; try rewrite IHd; reflexivity. Qed.

(** The own properties of a string are at decimal keys. *)
Lemma string_entries_keys s : forall i k v,
  obj_get (string_entries i s) k = Some v -> all decimal_digit k = true.
Proof.
  induction s as [|c s IH]; intros i k v; cbn [string_entries obj_get]; [discriminate|].
  destruct (String.eqb_spec (index_key i) k) as [<-|_]; [|apply IH].
  intros _. apply string_of_uint_digits.
Qed.

Section Agreement.

Variable kebabCase : string -> string.
Hypothesis kebab_segment : forall key, segment (kebabCase key) = true.

Lemma emitted_nested props key c r v :
  In (key, c) props -> isObject c = true ->
  In (r, v) (emitted kebabCase c) ->
  In ((kebabCase key ++ token ++ r)%string, v) (emitted kebabCase (VObj props)).
Proof.
  intros Hin Hc Hr. cbn [emitted]. apply in_flat_map. exists (key, c).
  split; [exact Hin|]. unfold declare. rewrite Hc.
  apply in_map_iff. exists (r, v). split; [|exact Hr].
  unfold rekey. cbn [fst snd]. now rewrite append_assoc.
Qed.

Lemma emitted_scalar_entry props key v :
  In (key, v) props -> isObject v = false ->
  In (kebabCase key, v) (emitted kebabCase (VObj props)).
Proof.
  intros Hin Hv. cbn [emitted]. apply in_flat_map. exists (key, v).
  split; [exact Hin|]. unfold declare. rewrite Hv. now left.
Qed.

(** A scalar reached by two keys that are no decimal numbers is the value
    of the variable named after the two keys. *)
Lemma reached_scalar_is_variable props k1 k2 v :
  distinct_keys kebabCase (VObj props) = true ->
  all decimal_digit k2 = false ->
  reach (VObj props) [k1; k2] = Some v ->
  isObject v = false ->
  obj_get (getCSSVariables kebabCase (VObj props))
    (prefix ++ token ++ kebabCase k1 ++ token ++ kebabCase k2)
  = Some v.
Proof.
  intros Hd Hk2 Hreach Hv. cbn [reach nullish own_entries] in Hreach.
  destruct (obj_get props k1) as [x|] eqn:E1; [|discriminate].
  destruct (nullish x); [discriminate|].
  destruct (obj_get (own_entries x) k2) as [y|] eqn:E2; [|discriminate].
  injection Hreach as ->.
  assert (Hx : exists inner, x = VObj inner).
  { destruct x; try discriminate.
    - cbn [own_entries] in E2. apply string_entries_keys in E2. congruence.
    - now eexists. }
  destruct Hx as [inner ->]. cbn [own_entries] in E2.
  apply obj_get_In in E1, E2.
  rewrite getCSSVariables_emitted. cbn [default_styles].
  assert (Hnd : NoDup (keys (map (rekey (prefix ++ token))
                               (emitted kebabCase (VObj props))))).
  { rewrite keys_rekey. apply NoDup_map_append.
    now apply (NoDup_emitted kebabCase kebab_segment). }
  rewrite (last_write_NoDup _ _ Hnd). apply (In_obj_get _ _ _ Hnd).
  rewrite append_assoc.
  apply (in_map (rekey (prefix ++ token))
           (emitted kebabCase (VObj props))
           ((kebabCase k1 ++ token ++ kebabCase k2)%string, v)).
  apply (emitted_nested props k1 (VObj inner) (kebabCase k2) v E1 eq_refl).
  now apply emitted_scalar_entry.
Qed.

End Agreement.

Lemma inline_style_reached styles out path v :
  In (out, path) mappings ->
  obj_get (getInlineStyles styles) out = Some v ->
  reach (default_styles styles) path = Some v.
Proof.
  intros Hin. rewrite getInlineStyles_table. unfold mappings in *. unfold inline_entry.
  cbn [flat_map fst snd].
  destruct Hin as [E|[E|[E|[]]]]; injection E as <- <-;
    destruct (reach _ ["typography"; "lineHeight"]);
    destruct (reach _ ["color"; "background"]);
    destruct (reach _ ["color"; "text"]);
    cbn; congruence.
Qed.

(** X5.  The two output modes carry the same values.  When the kebab-cased
    keys of every mapping of the configuration are pairwise distinct (with
    [kebabCase] returning dash-joined words), a scalar that
    [getInlineStyles] puts out under [lineHeight], [backgroundColor] or
    [color] is the value [getCSSVariables] gives the variable named after
    the source path of that output: [--wp--], the kebab-cased first key,
    [--] and the kebab-cased second key. *)
Theorem X5_inline_styles_agree_with_variables :
  forall kebabCase : string -> string,
    (forall key, segment (kebabCase key) = true) ->
    forall props out k1 k2 v,
      In (out, [k1; k2])
        [ ("lineHeight", ["typography"; "lineHeight"]);
          ("backgroundColor", ["color"; "background"]);
          ("color", ["color"; "text"]) ] ->
      distinct_keys kebabCase (VObj props) = true ->
      obj_get (getInlineStyles (VObj props)) out = Some v ->
      isObject v = false ->
      obj_get (getCSSVariables kebabCase (VObj props))
        ("--wp--" ++ kebabCase k1 ++ "--" ++ kebabCase k2)
      = Some v.
Proof.
  intros kebabCase Hseg props out k1 k2 v Hin Hd Hout Hv.
  apply (reached_scalar_is_variable kebabCase Hseg props k1 k2 v Hd); [| |exact Hv].
  - destruct Hin as [E|[E|[E|[]]]]; injection E as <- <- <-; reflexivity.
  - exact (inline_style_reached (VObj props) out [k1; k2] v Hin Hout).
Qed.

Lemma X5_witness :
  let props :=
    [("color", VObj [("text", VStr "#000"); ("background", VStr "#fff")]);
     ("typography", VObj [("lineHeight", VStr "1.5")])] in
  (distinct_keys Lodash.kebabCase (VObj props) = true
   /\ obj_get (getInlineStyles (VObj props)) "backgroundColor" = Some (VStr "#fff"))
  /\ obj_get (getCSSVariables Lodash.kebabCase (VObj props)) "--wp--color--background"
     = Some (VStr "#fff").
Proof.
  intros props. split; [split; vm_compute; reflexivity|].
  exact (X5_inline_styles_agree_with_variables Lodash.kebabCase
           KebabFacts.kebabCase_segment props "backgroundColor" "color" "background"
           (VStr "#fff") (or_intror (or_introl eq_refl)) eq_refl eq_refl eq_refl).
Defined.

(** ** More on the filters *)

Section MoreFilters.

Variable kebabCase : string -> string.
Variables COLOR_SUPPORT_KEY LINE_HEIGHT_SUPPRT_KEY : string.

Local Abbreviation supported :=
  (hasStyleSupport COLOR_SUPPORT_KEY LINE_HEIGHT_SUPPRT_KEY).
Local Abbreviation save :=
  (addSaveProps kebabCase COLOR_SUPPORT_KEY LINE_HEIGHT_SUPPRT_KEY).
Local Abbreviation invoke :=
  (call kebabCase COLOR_SUPPORT_KEY LINE_HEIGHT_SUPPRT_KEY).
Local Abbreviation computed := (computed_styles kebabCase).
Local Abbreviation injecting :=
  (injects COLOR_SUPPORT_KEY LINE_HEIGHT_SUPPRT_KEY).

(** One round of [addSaveProps] on a bag whose style already has the
    computed values under every key the bag did not set itself. *)
Lemma save_again st p settings attributes style :
  supported (types st settings) = true ->
  nullish attributes = false ->
  obj_get (bags st p) "style" = Some (VObj style) ->
  NoDup (keys style) ->
  (forall k, obj_get (computed st (prop attributes "style")) k <> None ->
             obj_get style k <> None) ->
  exists st' style',
    save st p settings attributes = Normal (st', p)
    /\ obj_get (bags st' p) "style" = Some (VObj style')
    /\ NoDup (keys style')
    /\ (forall k, obj_get style' k = obj_get style k)
    /\ (forall k, k <> "style" -> obj_get (bags st' p) k = obj_get (bags st p) k)
    /\ (forall l, l <> p -> bags st' l = bags st l)
    /\ types st' = types st /\ window st' = window st
    /\ next_bag st' = next_bag st.
Proof.
  intros Hs Ha Hstyle Hnd Hcover.
  assert (E := addSaveProps_supported kebabCase _ _ st p settings attributes Hs Ha).
  destruct (save_style _ _ _ _ _ _ _ _ E Hs Ha)
    as (Hstyle' & Hkeep & Hother & Ht & Hw & Hn).
  assert (Hp : prop (VObj (bags st p)) "style" = VObj style).
  { unfold prop. cbn [own_entries]. now rewrite Hstyle. }
  rewrite Hp in *.
  eexists. eexists. split; [exact E|]. split; [exact Hstyle'|].
  split; [apply NoDup_spread|]. split; [|now repeat split].
  intros k.
  rewrite (obj_get_merged _ (VObj style) k (NoDup_computed _ _ _) Hnd).
  cbn [own_entries]. specialize (Hcover k).
  destruct (obj_get style k); [reflexivity|]. cbn [or_else].
  destruct (obj_get (computed st (prop attributes "style")) k); [|reflexivity].
  exfalso. now apply Hcover.
Qed.

Lemma injects_types cb st st' :
  types st' = types st -> injecting st' cb = injecting st cb.
Proof.
  intros Ht. induction cb as [f|settings|existing settings IH] using callback_ind';
    cbn [injects]; now rewrite ?IH, ?Ht.
Qed.

Lemma save_throws st p settings attributes :
  save st p settings attributes = TypeError
  <-> supported (types st settings) = true /\ nullish attributes = true.
Proof.
  unfold addSaveProps.
  destruct (supported (types st settings)); cbn [negb];
    [|split; [discriminate | intros [H _]; discriminate]].
  destruct (nullish attributes); [tauto|].
  destruct (truthy _); (split; [discriminate | intros [_ H]; discriminate]).
Qed.

Lemma invoke_throws cb : forall st attributes,
  invoke cb st attributes = TypeError
  <-> injecting st cb = true /\ nullish attributes = true.
Proof.
  induction cb as [f|settings|existing settings IH] using callback_ind';
    intros st attributes; cbn [call injects alloc].
  - split; [discriminate | intros [H _]; discriminate].
  - rewrite save_throws. cbn [types orb]. tauto.
  - assert (Hinj : injecting (fst (alloc st [])) existing = injecting st existing)
      by now apply injects_types.
    cbn [alloc fst] in Hinj.
    destruct (invoke existing _ attributes) as [[st1 p1]|] eqn:E1.
    + rewrite save_throws.
      destruct (invoke_frame _ _ _ _ _ _ _ _ E1) as [Ht _]. cbn [types] in Ht.
      rewrite Ht.
      assert (Hno : ~ (injecting st existing = true /\ nullish attributes = true)).
      { intros H. rewrite <- Hinj in H. apply IH in H. congruence. }
      rewrite orb_true_iff. tauto.
    + apply IH in E1. rewrite Hinj in E1.
      destruct E1 as [-> ->]. cbn [orb]. tauto.
Qed.

(** The wrappers of [n + 1] applications of [addEditProps]. *)
Lemma invoke_wrappers original settings n : forall st attributes st0 base,
  supported (types st settings) = true ->
  nullish attributes = false ->
  match original with
  | Some prior => invoke prior (allocs (S n) st) attributes
  | None => Normal (alloc (allocs n st) [])
  end = Normal (st0, base) ->
  NoDup (keys (own_entries (prop (VObj (bags st0 base)) "style"))) ->
  exists st' style,
    invoke (wrappers original settings n) st attributes = Normal (st', base)
    /\ obj_get (bags st' base) "style" = Some (VObj style)
    /\ NoDup (keys style)
    /\ (forall k,
           obj_get style k
           = or_else (obj_get (own_entries (prop (VObj (bags st0 base)) "style")) k)
               (obj_get (computed st (prop attributes "style")) k))
    /\ (forall k, k <> "style" -> obj_get (bags st' base) k = obj_get (bags st0 base) k)
    /\ types st' = types st /\ window st' = window st.
Proof.
  induction n as [|n IH]; intros st attributes st0 base Hs Ha Hbase Hnd.
  - cbn [wrappers call allocs] in *.
    assert (Hcall : match original with
                    | Some existing => invoke existing (fst (alloc st [])) attributes
                    | None => Normal (alloc st [])
                    end = Normal (st0, base)) by exact Hbase.
    assert (Hframe : types st0 = types st /\ window st0 = window st).
    { destruct original as [prior|].
      - destruct (invoke_frame _ _ _ _ _ _ _ _ Hcall) as [Ht Hw]. now split.
      - injection Hcall as <- _. now split. }
    destruct Hframe as [Ht Hw].
    assert (Hs0 : supported (types st0 settings) = true) by now rewrite Ht.
    assert (E := addSaveProps_supported kebabCase _ _ st0 base settings attributes Hs0 Ha).
    destruct (save_style _ _ _ _ _ _ _ _ E Hs0 Ha) as (Hstyle & Hkeep & _ & Ht' & Hw' & _).
    eexists. eexists. split; [|split; [exact Hstyle|]].
    + destruct (alloc st []) as [stA pA] eqn:EA. cbn [fst] in Hcall.
      destruct original as [prior|].
      * rewrite Hcall. exact E.
      * injection Hcall as <- <-. exact E.
    + split; [apply NoDup_spread|]. split; [|split; [exact Hkeep|split; congruence]].
      intros k. rewrite (computed_styles_window kebabCase st st0 _ Hw).
      apply obj_get_merged; [apply NoDup_computed | exact Hnd].
  - cbn [wrappers call].
    destruct (alloc st []) as [stA pA] eqn:EA.
    assert (HA : stA = fst (alloc st [])) by now rewrite EA.
    assert (HtA : types stA = types st) by now rewrite HA.
    assert (HwA : window stA = window st) by now rewrite HA.
    assert (HsA : supported (types stA settings) = true) by now rewrite HtA.
    assert (HbaseA : match original with
                     | Some prior => invoke prior (allocs (S n) stA) attributes
                     | None => Normal (alloc (allocs n stA) [])
                     end = Normal (st0, base)).
    { rewrite HA. exact Hbase. }
    destruct (IH stA attributes st0 base HsA Ha HbaseA Hnd)
      as (st1 & style1 & E1 & Hstyle1 & Hnd1 & Hget1 & Hkeep1 & Ht1 & Hw1).
    rewrite E1.
    assert (Hs1 : supported (types st1 settings) = true) by now rewrite Ht1.
    destruct (save_again st1 base settings attributes style1 Hs1 Ha Hstyle1 Hnd1)
      as (st2 & style2 & E2 & Hstyle2 & Hnd2 & Hget2 & Hkeep2 & _ & Ht2 & Hw2 & _).
    { intros k Hk. rewrite Hget1.
      rewrite (computed_styles_window kebabCase stA st1 _ Hw1) in Hk.
      destruct (obj_get (own_entries _) k); [discriminate | exact Hk]. }
    exists st2, style2. split; [exact E2|]. split; [exact Hstyle2|].
    split; [exact Hnd2|]. split; [|split; [|split; congruence]].
    + intros k. rewrite Hget2, Hget1.
      now rewrite (computed_styles_window kebabCase st stA _ HwA).
    + intros k Hk. now rewrite (Hkeep2 k Hk), (Hkeep1 k Hk).
Qed.

End MoreFilters.

Lemma addEditProps_unsupported CK LK st settings :
  hasStyleSupport CK LK (types st settings) = false ->
  addEditProps CK LK st settings = (st, settings).
Proof. unfold addEditProps. now intros ->. Qed.

(** [n + 1] applications of [addEditProps] to the same descriptor. *)
Lemma addEditProps_iterated CK LK settings n : forall st,
  hasStyleSupport CK LK (types st settings) = true ->
  let st' := Nat.iter (S n) (fun s => fst (addEditProps CK LK s settings)) st in
  types st' settings
  = mkBlockType (supports (types st settings)) (attributes (types st settings))
      (Some (wrappers (getEditWrapperProps (types st settings)) settings n))
  /\ (forall l, l <> settings -> types st' l = types st l)
  /\ bags st' = bags st /\ window st' = window st /\ next_bag st' = next_bag st.
Proof.
  induction n as [|n IH]; intros st Hs.
  - cbn [Nat.iter nat_rect]. rewrite (addEditProps_supported CK LK st settings Hs).
    cbn [fst set_type types bags window next_bag wrappers]. rewrite update_same.
    repeat split. intros l Hl. now apply update_other.
  - destruct (IH st Hs) as (Ht & Hother & Hb & Hw & Hn).
    remember (Nat.iter (S n) (fun s => fst (addEditProps CK LK s settings)) st) as st1.
    change (Nat.iter (S (S n)) (fun s => fst (addEditProps CK LK s settings)) st)
      with (fst (addEditProps CK LK
                   (Nat.iter (S n) (fun s => fst (addEditProps CK LK s settings)) st)
                   settings)).
    rewrite <- Heqst1.
    assert (Hs1 : hasStyleSupport CK LK (types st1 settings) = true).
    { unfold hasStyleSupport in *. now rewrite Ht. }
    rewrite (addEditProps_supported CK LK st1 settings Hs1).
    cbn [fst set_type types bags window next_bag]. rewrite update_same, Ht.
    cbn [supports attributes getEditWrapperProps wrappers].
    repeat split; try assumption.
    intros l Hl. rewrite update_other by exact Hl. now apply Hother.
Qed.

(** X6.  [addSaveProps] is idempotent on a prop bag: for a block type with
    style support and attributes that are not null or undefined, a second
    call on the bag the first call returned succeeds as well and leaves
    every style entry, every other property of the bag and every other bag
    as the first call left them. *)
Theorem X6_addSaveProps_twice_is_once :
  forall (kebabCase : string -> string) CK LK st props blockType attributes,
    hasStyleSupport CK LK (types st blockType) = true ->
    nullish attributes = false ->
    exists st1 st2 style1 style2,
      addSaveProps kebabCase CK LK st props blockType attributes = Normal (st1, props)
      /\ addSaveProps kebabCase CK LK st1 props blockType attributes = Normal (st2, props)
      /\ obj_get (bags st1 props) "style" = Some (VObj style1)
      /\ obj_get (bags st2 props) "style" = Some (VObj style2)
      /\ (forall k, obj_get style2 k = obj_get style1 k)
      /\ (forall k, k <> "style" ->
                    obj_get (bags st2 props) k = obj_get (bags st1 props) k)
      /\ (forall l, l <> props -> bags st2 l = bags st1 l).
Proof.
  intros kebabCase CK LK st props blockType attributes Hs Ha.
  assert (E := addSaveProps_supported kebabCase CK LK st props blockType attributes Hs Ha).
  destruct (save_style _ _ _ _ _ _ _ _ E Hs Ha) as (Hstyle & _ & _ & Ht & Hw & _).
  remember (set_bag st props _) as st1 eqn:Est1 in E, Hstyle, Ht, Hw.
  assert (Hs1 : hasStyleSupport CK LK (types st1 blockType) = true) by now rewrite Ht.
  destruct (save_again kebabCase CK LK st1 props blockType attributes _
              Hs1 Ha Hstyle (NoDup_spread _ _))
    as (st2 & style2 & E2 & Hstyle2 & _ & Hget & Hkeep & Hother & _).
  { intros k. rewrite (computed_styles_window kebabCase st st1 _ Hw), obj_get_spread.
    cbn [own_entries]. rewrite (last_write_NoDup _ _ (NoDup_computed _ _ _)).
    intros Hk. destruct (last_write _ k); [discriminate | exact Hk]. }
  exists st1, st2. eexists. exists style2.
  split; [exact E|]. split; [exact E2|]. split; [exact Hstyle|].
  split; [exact Hstyle2|]. split; [exact Hget|]. split; [exact Hkeep | exact Hother].
Qed.

Lemma X6_witness :
  let st :=
    mkStore (VObj [])
      (fun _ => [("className", VStr "wp-block"); ("style", VObj [("color", VStr "red")])])
      1
      (fun _ => mkBlockType (String.eqb "__experimentalColor") [] None) in
  let attributes :=
    VObj [("style", VObj [("color", VObj [("text", VStr "blue");
                                         ("background", VStr "white")])])] in
  hasStyleSupport "__experimentalColor" "__experimentalLineHeight" (types st 0) = true
  /\ nullish attributes = false
  /\ exists st1 st2 style1 style2,
       addSaveProps Lodash.kebabCase "__experimentalColor" "__experimentalLineHeight"
         st 0 0 attributes = Normal (st1, 0)
       /\ addSaveProps Lodash.kebabCase "__experimentalColor" "__experimentalLineHeight"
            st1 0 0 attributes = Normal (st2, 0)
       /\ obj_get (bags st1 0) "style" = Some (VObj style1)
       /\ obj_get (bags st2 0) "style" = Some (VObj style2)
       /\ obj_get style1 "backgroundColor" = Some (VStr "white")
       /\ obj_get style2 "backgroundColor" = Some (VStr "white")
       /\ obj_get style2 "color" = Some (VStr "red").
Proof.
  intros st attributes. split; [reflexivity|]. split; [reflexivity|].
  destruct (X6_addSaveProps_twice_is_once Lodash.kebabCase
              "__experimentalColor" "__experimentalLineHeight"
              st 0 0 attributes eq_refl eq_refl)
    as (st1 & st2 & style1 & style2 & E1 & E2 & H1 & H2 & Hget & _).
  exists st1, st2, style1, style2.
  assert (Hstyle1 : style1 = [("backgroundColor", VStr "white"); ("color", VStr "red")]).
  { vm_compute in E1. injection E1 as <-. vm_compute in H1. now injection H1 as <-. }
  split; [exact E1|]. split; [exact E2|]. split; [exact H1|]. split; [exact H2|].
  rewrite !Hget, Hstyle1. repeat split.
Defined.

(** X7.  The only failure of the save and edit filters is the TypeError of
    destructuring missing attributes.  [addSaveProps] throws exactly when
    the block type has style support and the attributes are null or
    undefined.  A wrapper installed by [addEditProps] throws exactly when
    the attributes are null or undefined and some wrapper of its chain is
    for a descriptor with style support (the block's own callback being
    one that returns). *)
Theorem X7_TypeError_only_for_missing_attributes :
  forall (kebabCase : string -> string) CK LK,
    (forall st props blockType attributes,
        addSaveProps kebabCase CK LK st props blockType attributes = TypeError
        <-> hasStyleSupport CK LK (types st blockType) = true
            /\ nullish attributes = true)
    /\ (forall cb st attributes,
          call kebabCase CK LK cb st attributes = TypeError
          <-> injects CK LK st cb = true /\ nullish attributes = true).
Proof.
  intros kebabCase CK LK. split.
  - intros st props blockType attributes. apply save_throws.
  - intros cb st attributes. apply invoke_throws.
Qed.

(** X8.  The two filters on [blocks.registerBlockType] commute: running
    [addAttribute] and then [addEditProps] on a descriptor leaves the same
    descriptors, bags and window as running them in the other order, and
    both orders return the descriptor they were given. *)
Theorem X8_registration_filters_commute :
  forall CK LK st settings,
    let attribute_first := addEditProps CK LK (fst (addAttribute CK LK st settings))
                             (snd (addAttribute CK LK st settings)) in
    let edit_first := addAttribute CK LK (fst (addEditProps CK LK st settings))
                        (snd (addEditProps CK LK st settings)) in
    snd attribute_first = settings /\ snd edit_first = settings
    /\ (forall l, types (fst attribute_first) l = types (fst edit_first) l)
    /\ bags (fst attribute_first) = bags (fst edit_first)
    /\ window (fst attribute_first) = window (fst edit_first)
    /\ next_bag (fst attribute_first) = next_bag (fst edit_first).
Proof.
  intros CK LK st settings. cbv zeta.
  destruct (hasStyleSupport CK LK (types st settings)) eqn:Hs.
  - rewrite (addEditProps_supported CK LK st settings Hs). cbn [fst snd].
    destruct (truthy (prop (VObj (attributes (types st settings))) "style")) eqn:Hd.
    + rewrite (addAttribute_declared CK LK st settings Hd). cbn [fst snd].
      rewrite (addEditProps_supported CK LK st settings Hs).
      rewrite addAttribute_declared;
        [|cbn [set_type types]; rewrite update_same; exact Hd].
      now repeat split.
    + rewrite (addAttribute_added CK LK st settings Hs Hd). cbn [fst snd].
      rewrite addEditProps_supported;
        [|cbn [set_type types]; rewrite update_same; exact Hs].
      rewrite addAttribute_added;
        [|cbn [set_type types]; rewrite update_same; assumption ..].
      cbn [fst snd set_type types bags window next_bag]. rewrite !update_same.
      cbn [supports attributes getEditWrapperProps].
      repeat split. intros l. unfold update. now destruct (Nat.eqb l settings).
  - rewrite (addEditProps_unsupported CK LK st settings Hs).
    rewrite (addAttribute_unsupported CK LK st settings Hs). cbn [fst snd].
    rewrite (addEditProps_unsupported CK LK st settings Hs).
    rewrite (addAttribute_unsupported CK LK st settings Hs).
    now repeat split.
Qed.

(** X9.  Applying [addEditProps] any number [n + 1] of times to a
    descriptor with style support nests [n + 1] wrappers around the
    original callback and changes nothing else.  Called with attributes
    that are not null or undefined, the outermost wrapper returns the bag
    of the original callback (or a fresh empty one): its properties other
    than [style] are kept, and its [style] has, under every key, the value
    the original bag's style had and otherwise the computed one, whatever
    [n] is. *)
Theorem X9_any_number_of_wrappers :
  forall (kebabCase : string -> string) CK LK settings n st,
    hasStyleSupport CK LK (types st settings) = true ->
    let original := getEditWrapperProps (types st settings) in
    let st' := Nat.iter (S n) (fun s => fst (addEditProps CK LK s settings)) st in
    types st' settings
    = mkBlockType (supports (types st settings)) (attributes (types st settings))
        (Some (wrappers original settings n))
    /\ (forall l, l <> settings -> types st' l = types st l)
    /\ bags st' = bags st /\ window st' = window st /\ next_bag st' = next_bag st
    /\ forall attributes st0 base,
         nullish attributes = false ->
         match original with
         | Some prior => call kebabCase CK LK prior (allocs (S n) st') attributes
         | None => Normal (alloc (allocs n st') [])
         end = Normal (st0, base) ->
         NoDup (keys (own_entries (prop (VObj (bags st0 base)) "style"))) ->
         exists st2 style,
           call kebabCase CK LK (wrappers original settings n) st' attributes
           = Normal (st2, base)
           /\ (forall k, k <> "style" ->
                         obj_get (bags st2 base) k = obj_get (bags st0 base) k)
           /\ obj_get (bags st2 base) "style" = Some (VObj style)
           /\ forall k,
                obj_get style k
                = or_else
                    (obj_get (own_entries (prop (VObj (bags st0 base)) "style")) k)
                    (obj_get (computed_styles kebabCase st (prop attributes "style")) k).
Proof.
  intros kebabCase CK LK settings n st Hs original st'.
  destruct (addEditProps_iterated CK LK settings n st Hs) as (Ht & Hother & Hb & Hw & Hn).
  fold st' in Ht, Hother, Hb, Hw, Hn. fold original in Ht.
  split; [exact Ht|]. split; [exact Hother|]. split; [exact Hb|].
  split; [exact Hw|]. split; [exact Hn|].
  intros attributes st0 base Ha Hbase Hnd.
  assert (Hs' : hasStyleSupport CK LK (types st' settings) = true).
  { unfold hasStyleSupport in *. now rewrite Ht. }
  destruct (invoke_wrappers kebabCase CK LK original settings n st' attributes st0 base
              Hs' Ha Hbase Hnd)
    as (st2 & style & E & Hstyle & _ & Hget & Hkeep & _).
  exists st2, style. split; [exact E|]. split; [exact Hkeep|]. split; [exact Hstyle|].
  intros k. rewrite Hget. now rewrite (computed_styles_window kebabCase st st' _ Hw).
Qed.

Lemma X9_witness :
  let original :=
    Host (fun attributes =>
            [("data-align", prop attributes "align");
             ("style", VObj [("color", VStr "red")])]) in
  let descriptor :=
    mkBlockType (String.eqb "__experimentalColor") [] (Some original) in
  let st := mkStore (VObj []) (fun _ => []) 0 (fun _ => descriptor) in
  let st' :=
    Nat.iter 3
      (fun s => fst (addEditProps "__experimentalColor" "__experimentalLineHeight" s 0))
      st in
  let attributes :=
    VObj [("align", VStr "wide");
          ("style", VObj [("color", VObj [("text", VStr "blue")]);
                          ("typography", VObj [("lineHeight", VStr "2")])])] in
  hasStyleSupport "__experimentalColor" "__experimentalLineHeight" (types st 0) = true
  /\ getEditWrapperProps (types st' 0)
     = Some (Wrapper (Some (Wrapper (Some (Wrapper (Some original) 0)) 0)) 0)
  /\ exists st2 style,
       call Lodash.kebabCase "__experimentalColor" "__experimentalLineHeight"
         (wrappers (Some original) 0 2) st' attributes
       = Normal (st2, 3)
       /\ obj_get (bags st2 3) "data-align" = Some (VStr "wide")
       /\ obj_get (bags st2 3) "style" = Some (VObj style)
       /\ obj_get style "color" = Some (VStr "red")
       /\ obj_get style "lineHeight" = Some (VStr "2").
Proof.
  intros original descriptor st st' attributes. split; [reflexivity|].
  destruct (X9_any_number_of_wrappers Lodash.kebabCase
              "__experimentalColor" "__experimentalLineHeight" 0 2 st eq_refl)
    as (Ht & _ & _ & _ & _ & Hcall).
  split; [fold st' in Ht; rewrite Ht; reflexivity|].
  destruct (Hcall attributes
              (fst (alloc (allocs 3 st')
                      [("data-align", VStr "wide");
                       ("style", VObj [("color", VStr "red")])]))
              3 eq_refl eq_refl)
    as (st2 & style & E & Hkeep & Hstyle & Hget).
  - vm_compute. repeat constructor; simpl; intuition discriminate.
  - exists st2, style. split; [exact E|]. split.
    + rewrite Hkeep; [reflexivity | discriminate].
    + split; [exact Hstyle|]. rewrite !Hget. split; reflexivity.
Defined.
